(** * Data preparation of the RNN time-series notebook

    A shallow embedding of the data-preparation cells of
    [00_RNN_predictions_estimator_solution.ipynb]:

    - the "Generate fake dataset" cell ([data = np.concatenate(...)]),
    - the "prepare training dataset" cell ([np.roll], [np.reshape],
      [np.stack], [np.random.choice], fancy indexing and slicing),
    - the two input functions [train_dataset] and [eval_dataset].

    One-dimensional arrays are lists, two-dimensional arrays are lists of
    rows, the [N, 2, SEQLEN] array built by [np.stack(..., axis=1)] is a list
    of (input row, label row) pairs.  Python exceptions are values of [exn];
    the global NumPy generator is an explicit state of type [rng] that every
    random call receives and returns. *)

From Stdlib Require Import ZArith Lia Factorial.
From stdpp Require Import base numbers option list.

Set Default Proof Using "Type*".

(** ** Exceptions and fallible computations *)

Inductive exn : Set :=
| ValueError_concatenate   (* need at least one array to concatenate *)
| ValueError_reshape       (* cannot reshape array of size M into shape (L) *)
| ValueError_stack         (* all input arrays must have the same shape *)
| ValueError_slices        (* tf.data: dimensions of the components are not compatible *)
| ValueError_choice_empty  (* a must be greater than 0 unless no samples are taken *)
| ValueError_choice_sample (* Cannot take a larger sample than population when 'replace=False' *)
| IndexError               (* index out of bounds *)
| ZeroDivisionError        (* integer division or modulo by zero *)
| InvalidArgumentError     (* tf.data: Batch size must be greater than zero *)
| OutOfRangeError.         (* tf.data: End of sequence *)

Inductive result (T : Type) : Type :=
| Ok (v : T)
| Raise (e : exn).
Arguments Ok {T} v.
Arguments Raise {T} e.

#[global] Instance result_ret : MRet result := λ T v, Ok v.
#[global] Instance result_bind : MBind result := λ T U f m,
  match m with
  | Ok v => f v
  | Raise e => Raise e
  end.

Definition is_Ok {T} (r : result T) : Prop := ∃ v, r = Ok v.

Definition of_option {T} (e : exn) (o : option T) : result T :=
  match o with
  | Some v => Ok v
  | None => Raise e
  end.

(** ** NumPy array operations used by the notebook *)

Module Np.
Section ndarray.
Context {T : Type}.

(** [np.roll(a, shift)] on a one-dimensional array: the offset is
    [shift % (n or 1)]; a zero offset copies the array, otherwise
    [res[offset:] = a[:-offset]] and [res[:offset] = a[-offset:]]. *)
Definition roll (a : list T) (shift : Z) : list T :=
  let n := length a in
  let offset := Z.to_nat (shift `mod` Z.of_nat (Nat.max n 1)) in
  drop (n - offset) a ++ take (n - offset) a.

(** Row-major split of a flat buffer in [n] rows of [cols] entries. *)
Fixpoint rows_of (n cols : nat) (a : list T) : list (list T) :=
  match n with
  | 0 => []
  | S n' => take cols a :: rows_of n' cols (drop cols a)
  end.

(** [np.reshape(a, [-1, cols])]: the unknown dimension is resolved as
    [size / cols]; it is a size mismatch when the known part is zero or
    does not divide the size. *)
Definition reshape (a : list T) (cols : nat) : result (list (list T)) :=
  let s_original := length a in
  let s_known := cols in
  if (s_known =? 0) || negb (s_original `mod` s_known =? 0)
  then Raise ValueError_reshape
  else Ok (rows_of (s_original / s_known) cols a).

(** [np.concatenate(arrays)] of one-dimensional arrays. *)
Definition concatenate (arrays : list (list T)) : result (list T) :=
  match arrays with
  | [] => Raise ValueError_concatenate
  | _ => Ok (concat arrays)
  end.

(** [np.stack([a, b], axis=1)] of two two-dimensional arrays: shapes must
    agree; row [w] of the result holds row [w] of [a] and row [w] of [b]. *)
Definition stack_axis1 (a b : list (list T)) : result (list (list T * list T)) :=
  if bool_decide (length <$> a = length <$> b)
  then Ok (zip a b)
  else Raise ValueError_stack.

(** Integer-array indexing along the first axis, [a[idx]]: a fresh array
    with row [j] equal to [a[idx[j]]]; any index out of bounds raises. *)
Definition index_rows {R : Type} (a : list R) (idx : list nat) : result (list R) :=
  of_option IndexError (mapM (λ i, a !! i) idx).
End ndarray.
End Np.

(** Python's [a // b] on non-negative integers. *)
Definition floordiv (a b : nat) : result nat :=
  if b =? 0 then Raise ZeroDivisionError else Ok (a / b).

(** ** The global NumPy generator

    [np.random] keeps one hidden generator state.  The notebook reaches it
    through [np.random.choice] (and the waveform generator through
    [np.random.random]); both consume bounded draws:
    [rk_interval max state] returns an integer in [[0, max]] and
    [rk_double state] a float. *)

Class RandomState (F rng : Type) := {
  rk_interval : nat → rng → nat * rng;
  rk_double : rng → F * rng;
  rk_interval_le : ∀ max s, (rk_interval max s).1 ≤ max
}.

Module NpRandom.
Section mtrand.
Context {F rng : Type} `{!RandomState F rng}.

(** One exchange of the in-place shuffle:
    [buf = x[j]; x[j] = x[i]; x[i] = buf]. *)
Definition swap {T} (x : list T) (i j : nat) : list T :=
  match x !! i, x !! j with
  | Some xi, Some xj => <[i := xj]> (<[j := xi]> x)
  | _, _ => x
  end.

(** [for i in reversed(range(1, n)): j = rk_interval(i, state); swap],
    entered with [i = n - 1]. *)
Fixpoint shuffle_loop {T} (i : nat) (x : list T) (s : rng) : list T * rng :=
  match i with
  | 0 => (x, s)
  | S i' =>
      let '(j, s') := rk_interval i s in
      shuffle_loop i' (swap x i j) s'
  end.

Definition shuffle {T} (x : list T) (s : rng) : list T * rng :=
  shuffle_loop (length x - 1) x s.

(** [np.random.permutation(n)]: shuffle [np.arange(n)]. *)
Definition permutation (n : nat) (s : rng) : list nat * rng :=
  shuffle (seq 0 n) s.

(** [np.random.choice(a, size, replace=False)] for an integer [a]: an
    empty population is rejected unless no sample is taken, a sample larger
    than the population is rejected, and otherwise the sample is
    [permutation(pop_size)[:size]]. *)
Definition choice (a size : nat) (s : rng) : result (list nat * rng) :=
  let pop_size := a in
  if (pop_size =? 0) && negb (size =? 0) then Raise ValueError_choice_empty
  else if pop_size <? size then Raise ValueError_choice_sample
  else
    let '(idx, s') := permutation pop_size s in
    Ok (take size idx, s').

(** The loop again, with the draws given as a list instead of taken from
    the generator: what the shuffle does as a function of the values
    [rk_interval] returned. *)
Fixpoint shuffle_replay {T} (i : nat) (x : list T) (js : list nat) : list T :=
  match i, js with
  | S i', j :: js' => shuffle_replay i' (swap x i j) js'
  | _, _ => x
  end.

(** The draws the loop obtains from state [s] when entered with [i]. *)
Fixpoint draws (i : nat) (s : rng) : list nat :=
  match i with
  | 0 => []
  | S i' =>
      let '(j, s') := rk_interval i s in
      j :: draws i' s'
  end.

(** Every list of draws the loop can obtain when entered with [i]: the
    draw at loop index [k] ranges over [0 .. k]. *)
Fixpoint all_draws (i : nat) : list (list nat) :=
  match i with
  | 0 => [[]]
  | S i' => j ← seq 0 (S i); (j ::.) <$> all_draws i'
  end.

(** Number of draw lists after which the first [K] entries are [t]. *)
Definition hits {T} `{!EqDecision T} (i : nat) (x : list T) (K : nat)
    (t : list T) : nat :=
  length (filter (λ js, take K (shuffle_replay i x js) = t) (all_draws i)).

(** The index array of [choice] as a function of the draws. *)
Definition choice_replay (a size : nat) (js : list nat) : list nat :=
  take size (shuffle_replay (a - 1) (seq 0 a) js).
End mtrand.
End NpRandom.

(** ** The [tf.data] pipeline pieces used by the input functions *)

Module Dataset.
Section dataset.
Context {E : Type}.

(** [Dataset.from_tensor_slices((a, b))]: one element per index of the
    first axis; the two components must have the same first dimension. *)
Definition from_tensor_slices {R} (a b : list R) : result (list (R * R)) :=
  if length a =? length b then Ok (zip a b) else Raise ValueError_slices.

(** [dataset.repeat(count)] for a finite [count]. *)
Definition repeat (count : nat) (ds : list E) : list E :=
  concat (replicate count ds).

(** Consecutive groups of [batch_size] elements; the last group may be
    shorter ([drop_remainder=False]).  [fuel] bounds the number of
    groups and is instantiated with the number of elements. *)
Fixpoint groups (fuel batch_size : nat) (ds : list E) : list (list E) :=
  match fuel, ds with
  | 0, _ | _, [] => []
  | S fuel', _ => take batch_size ds :: groups fuel' batch_size (drop batch_size ds)
  end.

(** [dataset.batch(batch_size)]: the batch size must be positive. *)
Definition batch (batch_size : nat) (ds : list E) : result (list (list E)) :=
  if batch_size =? 0 then Raise InvalidArgumentError
  else Ok (groups (length ds) batch_size ds).

(** [iterator.get_next()] of a one-shot iterator: the iterator state is
    the list of elements not yet delivered. *)
Definition get_next (it : list E) : result E * list E :=
  match it with
  | [] => (Raise OutOfRangeError, [])
  | e :: it' => (Ok e, it')
  end.
End dataset.
End Dataset.

(** ** The notebook cells *)

Module Notebook.
Section notebook.
Context {F rng : Type} `{!RandomState F rng}.
Context {waveform : Type} (wave : waveform → nat → F → F).

(** Modelled from the spec: [utils_datagen.create_time_series] and the
    enumeration [utils_datagen.Waveforms] are imported by the notebook but
    their module is not among the sources.  Following the specification
    (section 4.1), a series of target length [datalen] for a waveform kind
    has one value per time step [0 .. datalen-1], each a periodic
    component of the kind at that step plus noise drawn from the random
    state; [wave] stands for that per-step formula. *)
Fixpoint time_series_from (kind : waveform) (t datalen : nat) (s : rng)
    : list F * rng :=
  match datalen with
  | 0 => ([], s)
  | S datalen' =>
      let '(noise, s1) := rk_double s in
      let '(rest, s2) := time_series_from kind (S t) datalen' s1 in
      (wave kind t noise :: rest, s2)
  end.

Definition create_time_series (kind : waveform) (datalen : nat) (s : rng)
    : list F * rng :=
  time_series_from kind 0 datalen s.

(** [[create_time_series(waveform, DATA_SEQ_LEN) for waveform in Waveforms]] *)
Fixpoint series_of (Waveforms : list waveform) (DATA_SEQ_LEN : nat) (s : rng)
    : list (list F) * rng :=
  match Waveforms with
  | [] => ([], s)
  | kind :: kinds =>
      let '(x, s1) := create_time_series kind DATA_SEQ_LEN s in
      let '(xs, s2) := series_of kinds DATA_SEQ_LEN s1 in
      (x :: xs, s2)
  end.

(** Cell "Generate fake dataset": [data = np.concatenate([...])]. *)
Definition generate (Waveforms : list waveform) (DATA_SEQ_LEN : nat) (s : rng)
    : result (list F * rng) :=
  let '(arrays, s') := series_of Waveforms DATA_SEQ_LEN s in
  data ← Np.concatenate arrays;
  mret (data, s').

(** The arrays bound by the cell "prepare training dataset".
    [eval_index] is the value of the [np.random.choice] expression, which
    the notebook uses in place without naming it. *)
Record prepared := {
  traindata : list (list F);
  labeldata : list (list F);
  joined_data : list (list F * list F);
  eval_index : list nat;
  joined_evaldata : list (list F * list F);
  evaldata : list (list F);
  evallabels : list (list F)
}.

(** [labeldata = np.roll(data, -1)]
    [traindata = np.reshape(data, [-1, SEQLEN])]
    [labeldata = np.reshape(labeldata, [-1, SEQLEN])] *)
Definition windowing (data : list F) (SEQLEN : nat)
    : result (list (list F) * list (list F)) :=
  let labeldata := Np.roll data (-1) in
  traindata ← Np.reshape data SEQLEN;
  labeldata ← Np.reshape labeldata SEQLEN;
  mret (traindata, labeldata).

(** [joined_data = np.stack([traindata, labeldata], axis=1)]
    [joined_evaldata = joined_data[np.random.choice(joined_data.shape[0],
                                    EVAL_SEQUENCES, replace=False)]]
    [evaldata = joined_evaldata[:,0,:]]
    [evallabels = joined_evaldata[:,1,:]] *)
Definition evaluation_split (traindata labeldata : list (list F))
    (EVAL_SEQUENCES : nat) (s : rng) : result (prepared * rng) :=
  joined_data ← Np.stack_axis1 traindata labeldata;
  '(idx, s') ← NpRandom.choice (length joined_data) EVAL_SEQUENCES s;
  joined_evaldata ← Np.index_rows joined_data idx;
  mret ({| traindata := traindata;
           labeldata := labeldata;
           joined_data := joined_data;
           eval_index := idx;
           joined_evaldata := joined_evaldata;
           evaldata := joined_evaldata.*1;
           evallabels := joined_evaldata.*2 |}, s').

(** The windowing and evaluation split for a given evaluation sample
    count. *)
Definition prepare (data : list F) (SEQLEN EVAL_SEQUENCES : nat) (s : rng)
    : result (prepared * rng) :=
  '(traindata, labeldata) ← windowing data SEQLEN;
  evaluation_split traindata labeldata EVAL_SEQUENCES s.

(** The cell as written, where the sample count is computed in between:
    [EVAL_SEQUENCES = DATA_SEQ_LEN*4//SEQLEN//4]. *)
Definition prepare_cell (data : list F) (DATA_SEQ_LEN SEQLEN : nat) (s : rng)
    : result (prepared * rng) :=
  '(traindata, labeldata) ← windowing data SEQLEN;
  q ← floordiv (DATA_SEQ_LEN * 4) SEQLEN;
  EVAL_SEQUENCES ← floordiv q 4;
  evaluation_split traindata labeldata EVAL_SEQUENCES s.

(** Both data cells in sequence, from the state of the global generator. *)
Definition run (Waveforms : list waveform) (DATA_SEQ_LEN SEQLEN : nat) (s : rng)
    : result (list F * prepared * rng) :=
  '(data, s1) ← generate Waveforms DATA_SEQ_LEN s;
  '(g, s2) ← prepare_cell data DATA_SEQ_LEN SEQLEN s1;
  mret (data, g, s2).

(** First statement of [train_dataset],
    [Dataset.from_tensor_slices((traindata, labeldata))]: the training pool,
    whose elements the later [repeat()], [shuffle(...)] and
    [batch(BATCHSIZE)] stages deliver again and again, reordered and
    grouped. *)
Definition train_pool (g : prepared) : result (list (list F * list F)) :=
  Dataset.from_tensor_slices (traindata g) (labeldata g).

(** [eval_dataset]: the batches behind the one-shot iterator. *)
Definition eval_dataset (g : prepared) (EVAL_SEQUENCES : nat)
    : result (list (list (list F * list F))) :=
  evaldataset ← Dataset.from_tensor_slices (evaldata g) (evallabels g);
  let evaldataset := Dataset.repeat 1 evaldataset in
  Dataset.batch EVAL_SEQUENCES evaldataset.

(** [samples, labels = iterator.get_next()] *)
Definition next_batch (it : list (list (list F * list F)))
    : result (list (list F) * list (list F)) * list (list (list F * list F)) :=
  let '(r, it') := Dataset.get_next it in
  (b ← r; mret (b.*1, b.*2), it').
End notebook.
End Notebook.

(** ** A concrete generator for examples

    Sample values are integers here and the generator is a linear
    congruential one; the theorems below hold for every [RandomState]. *)

Module Lcg.
Definition next (s : nat) : nat := (s * 13 + 7) `mod` 64.

Definition interval (max s : nat) : nat * nat := (s `mod` S max, next s).

#[global] Instance random_state : RandomState Z nat.
Proof.
  refine {| rk_interval := interval;
            rk_double s := (Z.of_nat (s `mod` 3), next s) |}.
  intros max s. simpl. pose proof (Nat.mod_upper_bound s (S max)). lia.
Defined.

Inductive kind := SINE1 | SINE2.

Definition example_data : list Z := [0; 1; 2; 3; 4; 5; 6; 7]%Z.

(** The arrays that the cell binds on [example_data] with [SEQLEN = 2],
    [EVAL_SEQUENCES = 3] and generator state [5]. *)
Definition example_prepared : Notebook.prepared :=
  {| Notebook.traindata := [[0; 1]; [2; 3]; [4; 5]; [6; 7]]%Z;
     Notebook.labeldata := [[1; 2]; [3; 4]; [5; 6]; [7; 0]]%Z;
     Notebook.joined_data :=
       [([0; 1], [1; 2]); ([2; 3], [3; 4]); ([4; 5], [5; 6]); ([6; 7], [7; 0])]%Z;
     Notebook.eval_index := [0; 3; 2];
     Notebook.joined_evaldata :=
       [([0; 1], [1; 2]); ([6; 7], [7; 0]); ([4; 5], [5; 6])]%Z;
     Notebook.evaldata := [[0; 1]; [6; 7]; [4; 5]]%Z;
     Notebook.evallabels := [[1; 2]; [7; 0]; [5; 6]]%Z |}.

Definition wave (k : kind) (t : nat) (noise : Z) : Z :=
  match k with
  | SINE1 => (Z.of_nat (t `mod` 4) + noise)%Z
  | SINE2 => (Z.of_nat (t `mod` 2) * 5 + noise)%Z
  end.
End Lcg.

(** ** Slicing, as the model functions use it *)

Module Py.
Section sequence.
Context {T : Type}.

(** A slice bound brought into [[0, len]]: a negative bound counts from
    the end, and bounds beyond either end are clipped. *)
Definition adjust (len : nat) (i : Z) : nat :=
  if (i <? 0)%Z then Z.to_nat (Z.max (i + Z.of_nat len) 0)
  else Nat.min (Z.to_nat i) len.

(** [l[start:stop]] *)
Definition slice (l : list T) (start stop : Z) : list T :=
  let a := adjust (length l) start in
  let b := adjust (length l) stop in
  take (b - a) (drop a l).
End sequence.
End Py.

(** Rank-2 tensors of static shape [[?, width]], sliced along their second
    axis.  [None] stands for the error the framework raises when it
    rejects an index or a value. *)
Module Tf.
Section tensor.
Context {T : Type}.

(** Entry [i] of a row: a negative index counts from the end; an index
    outside the row is an error. *)
Definition item (row : list T) (i : Z) : option T :=
  let len := Z.of_nat (length row) in
  let i' := if (i <? 0)%Z then (i + len)%Z else i in
  if ((i' <? 0) || (len <=? i'))%Z then None
  else row !! Z.to_nat i'.

(** Whether index [i] exists along an axis of [width] entries. *)
Definition in_bounds (width : nat) (i : Z) : bool :=
  let w := Z.of_nat width in
  let i' := if (i <? 0)%Z then (i + w)%Z else i in
  negb ((i' <? 0) || (w <=? i'))%Z.

(** Whether all rows have [width] entries, as a tensor of that static
    shape has. *)
Definition rectangular (width : nat) (X : list (list T)) : bool :=
  forallb (λ row, length row =? width) X.

(** [X[:, i]] for [X] of static shape [[?, width]]: the index is checked
    against the static width, whatever the number of rows. *)
Definition column (width : nat) (X : list (list T)) (i : Z) : option (list T) :=
  if in_bounds width i && rectangular width X
  then mapM (λ row, item row i) X
  else None.

(** [X[:, start:stop]] *)
Definition columns (X : list (list T)) (start stop : Z) : list (list T) :=
  (λ row, Py.slice row start stop) <$> X.
End tensor.
End Tf.

(** ** The model functions

    The arithmetic on samples is floating point and stays abstract
    ([fadd], [fsub], [fmul]); so do the trainable layers and the
    framework's loss, optimizer and metrics, which enter as parameters
    where a function uses them.  A function returns [None] when the
    framework raises while it runs. *)

Module Models.
Section models.
Context {F tfrng : Type}.
Context (fadd fsub fmul : F → F → F).
Context (random_uniform : tfrng → F * tfrng).

(** [tf.random_uniform([n], -2.0, 2.0)]: [n] draws from the framework's
    generator. *)
Fixpoint random_uniform_vector (n : nat) (g : tfrng) : list F * tfrng :=
  match n with
  | 0 => ([], g)
  | S n' =>
      let '(v, g1) := random_uniform g in
      let '(vs, g2) := random_uniform_vector n' g1 in
      (v :: vs, g2)
  end.

(** [simplistic_models(X)]: the random model, the "same as last" model and
    the "trend from last two" model.  [X] has the static shape
    [[?, SEQLEN]]. *)
Definition simplistic_models (SEQLEN : nat) (X : list (list F)) (g : tfrng)
    : option (list F * list F * list F * tfrng) :=
  let '(Yrnd, g') := random_uniform_vector (length X) g in
  Ysal ← Tf.column SEQLEN X (-1);
  last ← Tf.column SEQLEN X (-1);
  last' ← Tf.column SEQLEN X (-1);
  prev ← Tf.column SEQLEN X (-2);
  let Ytfl := zip_with fadd last (zip_with fsub last' prev) in
  mret (Yrnd, Ysal, Ytfl, g').

(** [bad_model(X)]; [dummy] is the value of the variable. *)
Definition bad_model (SEQLEN : nat) (dummy : F) (X : list (list F))
    : list (list F) :=
  let Yr := (λ row : list F, (λ v, fmul v dummy) <$> row) <$> X in
  let Yout := Tf.columns Yr (-1) (Z.of_nat SEQLEN) in
  Yout.

(** [RNN_model(X, n)]: [regression] stands for the recurrent cells and the
    regression head, which give one value [Yr[b][t]] per sequence and
    time step; the model keeps the last item(s). *)
Definition RNN_model (SEQLEN : nat) (regression : list (list F) → list (list F))
    (X : list (list F)) (n : nat) : list (list F) :=
  let Yr := regression X in
  let Yout := Tf.columns Yr (- Z.of_nat n) (Z.of_nat SEQLEN) in
  Yout.

(** [RNN_model_N(X)] *)
Definition RNN_model_N (SEQLEN : nat) (regression : list (list F) → list (list F))
    (X : list (list F)) : list (list F) :=
  RNN_model SEQLEN regression X (SEQLEN / 2).

Inductive ModeKeys := TRAIN | EVAL | PREDICT.

(** The framework's part of the model function: the results of
    [tf.losses.mean_squared_error], of
    [tf.contrib.training.create_train_op] with the Adam optimizer and of
    [tf.metrics.root_mean_squared_error] (on two matrices and on two
    vectors).  Each may reject its operands. *)
Context {Loss TrainOp Metric : Type}.
Context (mean_squared_error : list (list F) → list (list F) → option Loss).
Context (create_train_op : Loss → option TrainOp).
Context (root_mean_squared_error : list (list F) → list (list F) → option Metric).
Context (root_mean_squared_error_1 : list F → list F → option Metric).

(** [tf.estimator.EstimatorSpec]; the metrics are those under the keys
    ["RMSE"], ["RMSErnd"], ["RMSEsal"] and ["RMSEtfl"]. *)
Record EstimatorSpec := {
  mode : ModeKeys;
  predictions : list F;
  loss : option Loss;
  train_op : option TrainOp;
  eval_metric_ops : option (Metric * Metric * Metric * Metric)
}.

(** [configurable_model_fn(features, labels, mode, model)].  [features]
    and [labels] have the static shape [[?, SEQLEN]]; the output of
    [model] has the static shape [[?, p]], and [p] is also what
    [tf.shape(Y)[1]] evaluates to. *)
Definition configurable_model_fn (SEQLEN : nat)
    (model : list (list F) → list (list F)) (p : nat)
    (features labels : list (list F)) (mode : ModeKeys) (g : tfrng)
    : option (EstimatorSpec * tfrng) :=
  let X := features in
  let Y := model X in
  Yout ← Tf.column p Y (-1);
  match mode with
  | PREDICT =>
      mret ({| mode := mode; predictions := Yout; loss := None;
               train_op := None; eval_metric_ops := None |}, g)
  | _ =>
      last_label ← Tf.column SEQLEN labels (-1);
      let last_labels := Tf.columns labels (- Z.of_nat p) (Z.of_nat SEQLEN) in
      loss ← mean_squared_error Y last_labels;
      train_op ← create_train_op loss;
      '(Yrnd, Ysal, Ytfl, g') ← simplistic_models SEQLEN X g;
      RMSE ← root_mean_squared_error Y last_labels;
      RMSErnd ← root_mean_squared_error_1 Yrnd last_label;
      RMSEsal ← root_mean_squared_error_1 Ysal last_label;
      RMSEtfl ← root_mean_squared_error_1 Ytfl last_label;
      mret ({| mode := mode; predictions := Yout; loss := Some loss;
               train_op := Some train_op;
               eval_metric_ops := Some (RMSE, RMSErnd, RMSEsal, RMSEtfl) |}, g')
  end.

(** The static number of columns of [Yr[:, -n:SEQLEN]] for [Yr] of static
    shape [[?, SEQLEN]]. *)
Definition RNN_model_width (SEQLEN n : nat) : nat :=
  Py.adjust SEQLEN (Z.of_nat SEQLEN) - Py.adjust SEQLEN (- Z.of_nat n).

(** [model_fn]: the configurable function with [RNN_model_N]. *)
Definition model_fn (SEQLEN : nat) (regression : list (list F) → list (list F))
    (features labels : list (list F)) (mode : ModeKeys) (g : tfrng)
    : option (EstimatorSpec * tfrng) :=
  configurable_model_fn SEQLEN (RNN_model_N SEQLEN regression)
    (RNN_model_width SEQLEN (SEQLEN / 2)) features labels mode g.
End models.
End Models.

(** ** Static shapes of the convolutional model *)

Module Shape.
(** Shapes of rank-3 tensors, [[batch, steps, channels]]; [None] is a
    shape error raised while the graph is built. *)
Definition shape3 : Type := nat * nat * nat.

(** [tf.expand_dims(X, axis=2)] on a [[batch, steps]] tensor. *)
Definition expand_dims_2 (sh : nat * nat) : shape3 := (sh.1, sh.2, 1).

(** [tf.layers.conv1d(..., padding="same")] with stride 1. *)
Definition conv1d_same (filters kernel_size : nat) (sh : shape3) : option shape3 :=
  let '(batch, steps, _) := sh in
  if kernel_size =? 0 then None else Some (batch, steps, filters).

(** [tf.layers.conv1d(..., padding="valid")] with stride 1: the kernel
    must fit. *)
Definition conv1d_valid (filters kernel_size : nat) (sh : shape3) : option shape3 :=
  let '(batch, steps, _) := sh in
  if (kernel_size =? 0) || (steps <? kernel_size) then None
  else Some (batch, steps - kernel_size + 1, filters).

(** [tf.layers.max_pooling1d(Y, pool_size, strides)], padding "valid":
    the window must fit. *)
Definition max_pooling1d (pool_size strides : nat) (sh : shape3) : option shape3 :=
  let '(batch, steps, channels) := sh in
  if (strides =? 0) || (steps <? pool_size) then None
  else Some (batch, (steps - pool_size) / strides + 1, channels).

(** [tf.squeeze(Y, axis=-1)]: the last dimension must be 1. *)
Definition squeeze_last (sh : shape3) : option (nat * nat) :=
  let '(batch, steps, channels) := sh in
  if channels =? 1 then Some (batch, steps) else None.

(** The shapes along [CNN_model(X)] for [X] of shape
    [[BATCHSIZE, SEQLEN]]. *)
Definition CNN_model (BATCHSIZE SEQLEN : nat) : option (nat * nat) :=
  let X := expand_dims_2 (BATCHSIZE, SEQLEN) in
  Y ← conv1d_same 8 4 X;
  Y ← conv1d_same 16 3 Y;
  Y ← conv1d_same 8 1 Y;
  Y ← max_pooling1d 2 2 Y;
  Y ← conv1d_same 8 3 Y;
  Y ← max_pooling1d 2 2 Y;
  Yout ← conv1d_valid 1 (SEQLEN / 4) Y;
  squeeze_last Yout.
End Shape.

(** ** The training input function *)

Module Stream.
Section stream.
Context {E tfrng : Type} (random : tfrng → nat * tfrng).

(** State of the iterator over [repeat().shuffle(buffer_size)]: the
    elements left in the current pass over the source, the shuffle buffer
    and the framework's generator. *)
Record state := {
  pending : list E;
  buffer : list E;
  generator : tfrng
}.

(** One element of [dataset.repeat()]: when a pass is over, a new pass
    starts; a source without elements ends the sequence. *)
Definition repeat_next (pool pending : list E) : option E * list E :=
  match pending with
  | e :: pending' => (Some e, pending')
  | [] =>
      match pool with
      | e :: pool' => (Some e, pool')
      | [] => (None, [])
      end
  end.

(** Move up to [n] elements of the input into the buffer. *)
Fixpoint fill (n : nat) (pool buffer pending : list E) : list E * list E :=
  match n with
  | 0 => (buffer, pending)
  | S n' =>
      match repeat_next pool pending with
      | (Some e, pending') => fill n' pool (buffer ++ [e]) pending'
      | (None, pending') => (buffer, pending')
      end
  end.

(** One element of [shuffle(buffer_size)]: top the buffer up, deliver
    the element at a random offset and let the head element take its
    place. *)
Definition shuffle_next (buffer_size : nat) (pool : list E) (st : state)
    : option E * state :=
  let '(buf, pend) :=
    fill (buffer_size - length (buffer st)) pool (buffer st) (pending st) in
  match buf with
  | [] => (None, {| pending := pend; buffer := []; generator := generator st |})
  | head :: _ =>
      let '(r, g') := random (generator st) in
      let offset := r `mod` length buf in
      (buf !! offset,
       {| pending := pend;
          buffer := tail (<[offset := head]> buf);
          generator := g' |})
  end.

(** Up to [n] elements for one batch. *)
Fixpoint pull (n buffer_size : nat) (pool : list E) (st : state)
    : list E * state :=
  match n with
  | 0 => ([], st)
  | S n' =>
      match shuffle_next buffer_size pool st with
      | (Some e, st') =>
          let '(es, st'') := pull n' buffer_size pool st' in
          (e :: es, st'')
      | (None, st') => ([], st')
      end
  end.

(** [get_next()] on [batch(batch_size)]: a batch is delivered as soon as
    it has one element; none means the end of the sequence. *)
Definition batch_next (batch_size buffer_size : nat) (pool : list E) (st : state)
    : result (list E) * state :=
  let '(es, st') := pull batch_size buffer_size pool st in
  match es with
  | [] => (Raise OutOfRangeError, st')
  | _ => (Ok es, st')
  end.

(** The outcomes of [k] successive [get_next()] calls. *)
Fixpoint batches (k batch_size buffer_size : nat) (pool : list E) (st : state)
    : list (result (list E)) :=
  match k with
  | 0 => []
  | S k' =>
      let '(r, st') := batch_next batch_size buffer_size pool st in
      r :: batches k' batch_size buffer_size pool st'
  end.
End stream.
End Stream.

(** Buffer and current pass hold elements of the source only. *)
Definition stream_inv {E tfrng : Type} (pool : list E)
    (st : Stream.state (E := E) (tfrng := tfrng)) : Prop :=
  Stream.buffer st ⊆ pool ∧ Stream.pending st ⊆ pool.

Module Training.
Section training.
Context {F tfrng : Type} (random : tfrng → nat * tfrng).

(** The iterator that [train_dataset] makes. *)
Record train_iterator := {
  pool : list (list F * list F);
  buffer_size : nat;
  batch_size : nat;
  position : Stream.state (E := list F * list F) (tfrng := tfrng)
}.

(** [train_dataset()]: the description of the input and its one-shot
    iterator.  Nothing is read yet, and the sizes given to [shuffle] and
    [batch] are not looked at. *)
Definition train_dataset (g : Notebook.prepared (F := F))
    (DATA_SEQ_LEN SEQLEN BATCHSIZE : nat) (seed : tfrng)
    : result train_iterator :=
  dataset ← Notebook.train_pool g;
  buffer_size ← floordiv (DATA_SEQ_LEN * 4) SEQLEN;
  mret {| pool := dataset;
          buffer_size := buffer_size;
          batch_size := BATCHSIZE;
          position := {| Stream.pending := dataset;
                         Stream.buffer := [];
                         Stream.generator := seed |} |}.

(** Running [samples, labels]: the iterator is set up by the first run,
    where [shuffle] and [batch] insist on a positive size; then one
    batch is read. *)
Definition get_next (it : train_iterator)
    : result (list (list F) * list (list F)) * train_iterator :=
  if (buffer_size it =? 0) || (batch_size it =? 0)
  then (Raise InvalidArgumentError, it)
  else
    let '(r, st') :=
      Stream.batch_next random (batch_size it) (buffer_size it) (pool it)
        (position it) in
    (b ← r; mret (b.*1, b.*2),
     {| pool := pool it; buffer_size := buffer_size it;
        batch_size := batch_size it; position := st' |}).

(** The batches of the first [k] training steps. *)
Fixpoint steps (k : nat) (it : train_iterator)
    : list (result (list (list F) * list (list F))) :=
  match k with
  | 0 => []
  | S k' =>
      let '(r, it') := get_next it in
      r :: steps k' it'
  end.

(** [nbsteps = DATA_SEQ_LEN*4//SEQLEN//BATCHSIZE * NB_EPOCHS] *)
Definition nbsteps (DATA_SEQ_LEN SEQLEN BATCHSIZE NB_EPOCHS : nat) : result nat :=
  q ← floordiv (DATA_SEQ_LEN * 4) SEQLEN;
  r ← floordiv q BATCHSIZE;
  mret (r * NB_EPOCHS).
End training.
End Training.

(** A generator of the framework for examples. *)
Module TfLcg.
Definition random (g : nat) : nat * nat := (g, Lcg.next g).

Definition random_uniform (g : nat) : Z * nat :=
  ((Z.of_nat (g `mod` 5) - 2)%Z, Lcg.next g).

(** Stand-ins for the framework's loss, optimizer and metrics: each
    records its operands. *)
Definition mean_squared_error (A B : list (list Z))
    : option (list (list Z) * list (list Z)) := Some (A, B).

Definition create_train_op (l : list (list Z) * list (list Z))
    : option (list (list Z) * list (list Z)) := Some l.

Definition root_mean_squared_error (A B : list (list Z))
    : option (list (list Z) * list (list Z)) := Some (A, B).

Definition root_mean_squared_error_1 (a b : list Z)
    : option (list (list Z) * list (list Z)) := Some ([a], [b]).
End TfLcg.

(** ** Facts about [roll] and [reshape] *)

Section ndarray_facts.
Context {T : Type}.
Implicit Types (a : list T) (X : list (list T)).

Lemma roll_length a shift : length (Np.roll a shift) = length a.
Proof.
  unfold Np.roll. rewrite length_app, length_drop, length_take. lia.
Qed.

Lemma roll_minus_one a : Np.roll a (-1) = drop 1 a ++ take 1 a.
Proof.
  unfold Np.roll. destruct a as [|x a]; [done|].
  set (n := length (x :: a)).
  assert (Hn : 1 ≤ n) by (subst n; simpl; lia).
  replace (Nat.max n 1) with n by lia.
  assert (Hoff : ((-1) `mod` Z.of_nat n = Z.of_nat n - 1)%Z).
  { symmetry. apply (Z.mod_unique _ _ (-1)); lia. }
  rewrite Hoff. replace (n - Z.to_nat (Z.of_nat n - 1)) with 1 by lia. done.
Qed.

Lemma roll_minus_one_lookup a i :
  i < length a → Np.roll a (-1) !! i = a !! ((i + 1) `mod` length a).
Proof.
  intros Hi. rewrite roll_minus_one.
  destruct (decide (i + 1 < length a)) as [Hlt|Hge].
  - rewrite lookup_app_l by (rewrite length_drop; lia).
    rewrite lookup_drop, Nat.mod_small by lia. f_equal; lia.
  - assert (i + 1 = length a) as Heq by lia.
    rewrite lookup_app_r by (rewrite length_drop; lia).
    rewrite length_drop, Heq, Nat.Div0.mod_same.
    replace (i - (length a - 1)) with 0 by lia.
    by rewrite lookup_take_lt by lia.
Qed.

Lemma roll_elem_of a shift x : x ∈ Np.roll a shift ↔ x ∈ a.
Proof.
  assert (Hk : ∀ k, x ∈ drop k a ++ take k a ↔ x ∈ a).
  { intros k. rewrite <- (take_drop k a) at 3. rewrite !elem_of_app. tauto. }
  apply Hk.
Qed.

Lemma rows_of_length n cols a : length (Np.rows_of n cols a) = n.
Proof. revert a. induction n as [|n IH]; intros a; simpl; [done|by rewrite IH]. Qed.

Lemma rows_of_lookup n cols a w :
  w < n → Np.rows_of n cols a !! w = Some (take cols (drop (w * cols) a)).
Proof.
  revert a w. induction n as [|n IH]; intros a w Hw; [lia|].
  destruct w as [|w]; simpl; [done|].
  rewrite IH by lia. rewrite drop_drop. do 3 f_equal.
Qed.

Lemma rows_of_concat n cols a :
  length a = n * cols → concat (Np.rows_of n cols a) = a.
Proof.
  revert a. induction n as [|n IH]; intros a Hlen; simpl in *.
  - by destruct a.
  - rewrite IH; [apply take_drop|]. rewrite length_drop. lia.
Qed.

Lemma rows_of_row_length n cols a x :
  length a = n * cols → x ∈ Np.rows_of n cols a → length x = cols.
Proof.
  intros Hlen [w Hw]%list_elem_of_lookup.
  pose proof (lookup_lt_Some _ _ _ Hw) as Hlt. rewrite rows_of_length in Hlt.
  rewrite rows_of_lookup in Hw by done. injection Hw as <-.
  rewrite length_take, length_drop. nia.
Qed.

(** [reshape] succeeds exactly on a non-zero column count dividing the size. *)
Lemma reshape_Ok_iff a cols :
  is_Ok (Np.reshape a cols) ↔ 0 < cols ∧ length a `mod` cols = 0.
Proof.
  unfold Np.reshape, is_Ok.
  destruct (Nat.eqb_spec cols 0) as [->|Hc]; simpl.
  - split; [intros [? [=]]|lia].
  - destruct (Nat.eqb_spec (length a `mod` cols) 0) as [Hm|Hm]; simpl.
    + split; [lia|eauto].
    + split; [intros [? [=]]|lia].
Qed.

Lemma reshape_Raise a cols :
  ¬ (0 < cols ∧ length a `mod` cols = 0) →
  Np.reshape a cols = Raise ValueError_reshape.
Proof.
  intros Hn. unfold Np.reshape.
  destruct (Nat.eqb_spec cols 0) as [->|Hc]; simpl; [done|].
  destruct (Nat.eqb_spec (length a `mod` cols) 0) as [Hm|Hm]; simpl; [lia|done].
Qed.

Lemma reshape_Ok_inv a cols X :
  Np.reshape a cols = Ok X →
  0 < cols ∧ length a = (length a / cols) * cols ∧
  X = Np.rows_of (length a / cols) cols a.
Proof.
  unfold Np.reshape.
  destruct (Nat.eqb_spec cols 0) as [->|Hc]; simpl; [done|].
  destruct (Nat.eqb_spec (length a `mod` cols) 0) as [Hm|Hm]; simpl; [|done].
  intros [= <-]. split; [lia|]. split; [|done].
  pose proof (Nat.div_mod_eq (length a) cols). lia.
Qed.

Lemma reshape_Ok_intro a cols :
  0 < cols → length a `mod` cols = 0 →
  Np.reshape a cols = Ok (Np.rows_of (length a / cols) cols a).
Proof.
  intros Hc Hm. unfold Np.reshape.
  destruct (Nat.eqb_spec cols 0); [lia|]. rewrite Hm. done.
Qed.
End ndarray_facts.

(** ** The windowing transform *)

Section windowing_facts.
Context {F : Type}.
Implicit Types (data : list F) (X Y : list (list F)).

Lemma rows_of_lookup_lookup n cols (a : list F) w i r :
  length a = n * cols → Np.rows_of n cols a !! w = Some r → i < cols →
  r !! i = a !! (w * cols + i).
Proof.
  intros Hlen Hw Hi.
  pose proof (lookup_lt_Some _ _ _ Hw) as Hlt. rewrite rows_of_length in Hlt.
  rewrite rows_of_lookup in Hw by done. injection Hw as <-.
  by rewrite lookup_take_lt, lookup_drop by done.
Qed.

Lemma windowing_Ok_intro data SEQLEN :
  0 < SEQLEN → length data `mod` SEQLEN = 0 →
  Notebook.windowing data SEQLEN =
    Ok (Np.rows_of (length data / SEQLEN) SEQLEN data,
        Np.rows_of (length data / SEQLEN) SEQLEN (Np.roll data (-1))).
Proof.
  intros HL Hm. unfold Notebook.windowing.
  rewrite (reshape_Ok_intro data) by done. simpl.
  rewrite reshape_Ok_intro by (by rewrite ?roll_length).
  by rewrite roll_length.
Qed.

Lemma windowing_Ok_inv data SEQLEN X Y :
  Notebook.windowing data SEQLEN = Ok (X, Y) →
  0 < SEQLEN ∧ length data = (length data / SEQLEN) * SEQLEN ∧
  X = Np.rows_of (length data / SEQLEN) SEQLEN data ∧
  Y = Np.rows_of (length data / SEQLEN) SEQLEN (Np.roll data (-1)).
Proof.
  unfold Notebook.windowing.
  destruct (Np.reshape data SEQLEN) as [X'|] eqn:HX; simpl; [|done].
  destruct (Np.reshape (Np.roll data (-1)) SEQLEN) as [Y'|] eqn:HY; simpl; [|done].
  intros [= <- <-].
  apply reshape_Ok_inv in HX as (? & ? & ?).
  apply reshape_Ok_inv in HY as (? & ? & HY). rewrite roll_length in HY. done.
Qed.

Lemma windowing_Raise data SEQLEN :
  ¬ (0 < SEQLEN ∧ length data `mod` SEQLEN = 0) →
  Notebook.windowing data SEQLEN = Raise ValueError_reshape.
Proof.
  intros Hn. unfold Notebook.windowing.
  by rewrite (reshape_Raise data SEQLEN Hn).
Qed.

(** Entry [i] of label window [w] is the entry of the source sequence one
    position further, cyclically. *)
Lemma label_window_lookup data SEQLEN X Y w y i :
  Notebook.windowing data SEQLEN = Ok (X, Y) → Y !! w = Some y → i < SEQLEN →
  y !! i = data !! ((w * SEQLEN + i + 1) `mod` length data).
Proof.
  intros (HL & Hlen & -> & ->)%windowing_Ok_inv Hy Hi.
  pose proof (lookup_lt_Some _ _ _ Hy) as Hw. rewrite rows_of_length in Hw.
  rewrite (rows_of_lookup_lookup _ _ _ _ i _ (eq_trans (roll_length _ _) Hlen) Hy Hi).
  apply roll_minus_one_lookup. nia.
Qed.

Lemma input_window_lookup data SEQLEN X Y w x i :
  Notebook.windowing data SEQLEN = Ok (X, Y) → X !! w = Some x → i < SEQLEN →
  x !! i = data !! (w * SEQLEN + i).
Proof.
  intros (HL & Hlen & -> & ->)%windowing_Ok_inv Hx Hi.
  by apply (rows_of_lookup_lookup (length data / SEQLEN)).
Qed.

Lemma window_lengths data SEQLEN X Y :
  Notebook.windowing data SEQLEN = Ok (X, Y) →
  length X = length data / SEQLEN ∧ length Y = length data / SEQLEN ∧
  Forall (λ x, length x = SEQLEN) X ∧ Forall (λ y, length y = SEQLEN) Y.
Proof.
  intros (HL & Hlen & -> & ->)%windowing_Ok_inv.
  split_and!; [apply rows_of_length..| |].
  - apply Forall_forall. intros x Hx. by apply rows_of_row_length in Hx.
  - apply Forall_forall. intros x Hx.
    apply rows_of_row_length in Hx; [done|by rewrite roll_length].
Qed.

(** Within a window the labels are the inputs one index later; the last
    label is the head of the following window, or of the whole sequence for
    the final window. *)
Lemma window_shift data SEQLEN X Y w x y :
  Notebook.windowing data SEQLEN = Ok (X, Y) →
  X !! w = Some x → Y !! w = Some y →
  (∀ i, i + 1 < SEQLEN → y !! i = x !! (i + 1)) ∧
  (∀ x', X !! (w + 1) = Some x' → y !! (SEQLEN - 1) = x' !! 0) ∧
  (w + 1 = length data / SEQLEN → y !! (SEQLEN - 1) = data !! 0).
Proof.
  intros Hwin Hx Hy.
  pose proof (windowing_Ok_inv _ _ _ _ Hwin) as (HL & Hlen & HX & _).
  pose proof (lookup_lt_Some _ _ _ Hx) as Hw.
  rewrite HX, rows_of_length in Hw.
  split; [|split].
  - intros i Hi.
    rewrite (label_window_lookup _ _ _ _ _ _ _ Hwin Hy) by lia.
    rewrite (input_window_lookup _ _ _ _ _ _ _ Hwin Hx) by lia.
    rewrite Nat.mod_small by nia. f_equal; lia.
  - intros x' Hx'.
    pose proof (lookup_lt_Some _ _ _ Hx') as Hw'.
    rewrite HX, rows_of_length in Hw'.
    rewrite (label_window_lookup _ _ _ _ _ _ _ Hwin Hy) by lia.
    rewrite (input_window_lookup _ _ _ _ _ _ _ Hwin Hx') by lia.
    rewrite Nat.mod_small by nia. f_equal; lia.
  - intros Hlast.
    rewrite (label_window_lookup _ _ _ _ _ _ _ Hwin Hy) by lia.
    replace (w * SEQLEN + (SEQLEN - 1) + 1) with (length data) by nia.
    by rewrite Nat.Div0.mod_same.
Qed.
End windowing_facts.

(** ** The shuffle behind [np.random.choice] *)

Section mtrand_facts.
Context {F rng : Type} `{!RandomState F rng}.

Lemma swap_Permutation {T} (x : list T) i j : NpRandom.swap x i j ≡ₚ x.
Proof.
  unfold NpRandom.swap.
  destruct (x !! i) as [xi|] eqn:Hi; [|done].
  destruct (x !! j) as [xj|] eqn:Hj; [|done].
  by apply Permutation_insert_swap.
Qed.

Lemma shuffle_loop_Permutation {T} i (x : list T) (s : rng) :
  (NpRandom.shuffle_loop i x s).1 ≡ₚ x.
Proof.
  revert x s. induction i as [|i IH]; intros x s; [done|].
  cbn [NpRandom.shuffle_loop].
  destruct (rk_interval (S i) s) as [j s1]. rewrite IH. apply swap_Permutation.
Qed.

Lemma permutation_Permutation n (s : rng) :
  (NpRandom.permutation n s).1 ≡ₚ seq 0 n.
Proof. apply shuffle_loop_Permutation. Qed.

Lemma choice_Ok_inv a size (s : rng) idx s' :
  NpRandom.choice a size s = Ok (idx, s') →
  size ≤ a ∧ idx = take size (NpRandom.permutation a s).1 ∧
  s' = (NpRandom.permutation a s).2.
Proof.
  unfold NpRandom.choice.
  destruct ((a =? 0) && negb (size =? 0)); [done|].
  destruct (Nat.ltb_spec a size) as [Hlt|Hle]; [done|].
  destruct (NpRandom.permutation a s) as [p s1]. by intros [= <- <-].
Qed.

Lemma choice_Ok_intro a size (s : rng) :
  size ≤ a →
  NpRandom.choice a size s =
    Ok (take size (NpRandom.permutation a s).1, (NpRandom.permutation a s).2).
Proof.
  intros Hle. unfold NpRandom.choice.
  destruct (Nat.eqb_spec a 0) as [->|Ha]; simpl.
  - replace size with 0 by lia. simpl. by destruct (NpRandom.permutation 0 s).
  - destruct (Nat.ltb_spec a size) as [Hlt|_]; [lia|].
    by destruct (NpRandom.permutation a s).
Qed.


(** The drawn indices: as many as requested, pairwise distinct, in range. *)
Lemma choice_indices a size (s : rng) idx s' :
  NpRandom.choice a size s = Ok (idx, s') →
  length idx = size ∧ NoDup idx ∧ Forall (λ i, i < a) idx.
Proof.
  intros (Hle & -> & _)%choice_Ok_inv.
  pose proof (permutation_Permutation a s) as Hperm.
  split_and!.
  - rewrite length_take, (Permutation_length Hperm), length_seq. lia.
  - eapply sublist_NoDup; [|apply sublist_take].
    rewrite Hperm. apply NoDup_seq.
  - apply Forall_forall. intros i Hi%subseteq_take.
    rewrite Hperm in Hi. apply elem_of_seq in Hi. lia.
Qed.
End mtrand_facts.

(** ** The evaluation split *)

Section split_facts.
Context {F rng : Type} `{!RandomState F rng}.
Implicit Types (data : list F) (X Y : list (list F)) (s : rng).
Implicit Types (g : Notebook.prepared (F:=F)).

Lemma evaluation_split_Ok_inv X Y K s g s' :
  Notebook.evaluation_split X Y K s = Ok (g, s') →
  Notebook.traindata g = X ∧ Notebook.labeldata g = Y ∧
  Notebook.joined_data g = zip X Y ∧
  NpRandom.choice (length (zip X Y)) K s = Ok (Notebook.eval_index g, s') ∧
  mapM (λ i, zip X Y !! i) (Notebook.eval_index g) = Some (Notebook.joined_evaldata g) ∧
  Notebook.evaldata g = (Notebook.joined_evaldata g).*1 ∧
  Notebook.evallabels g = (Notebook.joined_evaldata g).*2.
Proof.
  unfold Notebook.evaluation_split, Np.stack_axis1.
  case_bool_decide as Hshape; simpl; [|done].
  destruct (NpRandom.choice _ K s) as [[idx s1]|] eqn:Hch; simpl; [|done].
  unfold Np.index_rows.
  destruct (mapM _ idx) as [je|] eqn:Hm; simpl; [|done].
  by intros [= <- <-].
Qed.

Lemma index_rows_in_range {R} (a : list R) idx :
  Forall (λ i, i < length a) idx → is_Some (mapM (λ i, a !! i) idx).
Proof.
  intros Hidx. apply mapM_is_Some. eapply Forall_impl; [done|].
  intros i Hi. by apply lookup_lt_is_Some.
Qed.

Lemma evaluation_split_Ok_intro X Y K s :
  length <$> X = length <$> Y → K ≤ length X →
  is_Ok (Notebook.evaluation_split X Y K s).
Proof.
  intros Hshape HK. unfold Notebook.evaluation_split, Np.stack_axis1.
  rewrite bool_decide_eq_true_2 by done. simpl.
  assert (length (zip X Y) = length X) as Hlen.
  { rewrite length_zip. apply (f_equal length) in Hshape.
    rewrite !length_fmap in Hshape. lia. }
  rewrite choice_Ok_intro by lia. simpl.
  destruct (index_rows_in_range (zip X Y)
    (take K (NpRandom.permutation (length (zip X Y)) s).1)) as [je Hje].
  { eapply choice_indices. by apply choice_Ok_intro; lia. }
  unfold Np.index_rows. rewrite Hje. simpl. by eexists.
Qed.


Lemma prepare_Ok_inv data SEQLEN K s g s' :
  Notebook.prepare data SEQLEN K s = Ok (g, s') →
  Notebook.windowing data SEQLEN = Ok (Notebook.traindata g, Notebook.labeldata g) ∧
  Notebook.evaluation_split (Notebook.traindata g) (Notebook.labeldata g) K s = Ok (g, s').
Proof.
  unfold Notebook.prepare.
  destruct (Notebook.windowing data SEQLEN) as [[X Y]|] eqn:Hwin; simpl; [|done].
  intros Hsplit.
  pose proof (evaluation_split_Ok_inv _ _ _ _ _ _ Hsplit) as (<- & <- & _). done.
Qed.

Lemma windows_same_shape data SEQLEN X Y :
  Notebook.windowing data SEQLEN = Ok (X, Y) → length <$> X = length <$> Y.
Proof.
  intros (HX & HY & HfX & HfY)%window_lengths.
  apply list_eq_same_length with (length X); rewrite ?length_fmap; [lia|lia|].
  intros i n m Hi. rewrite !list_lookup_fmap.
  intros (x & Hx & ->)%fmap_Some (y & Hy & ->)%fmap_Some.
  rewrite Forall_forall in HfX, HfY.
  rewrite (HfX x), (HfY y); eauto using list_elem_of_lookup_2.
Qed.

(** The sample count of the cell as written; with it the cell is [prepare]. *)
Lemma prepare_cell_eq data DATA_SEQ_LEN SEQLEN s :
  Notebook.prepare_cell data DATA_SEQ_LEN SEQLEN s =
  Notebook.prepare data SEQLEN (DATA_SEQ_LEN * 4 / SEQLEN / 4) s.
Proof.
  unfold Notebook.prepare_cell, Notebook.prepare.
  destruct (Notebook.windowing data SEQLEN) as [[X Y]|] eqn:Hwin; simpl; [|done].
  apply windowing_Ok_inv in Hwin as (HL & _). unfold floordiv.
  destruct (Nat.eqb_spec SEQLEN 0); [lia|done].
Qed.
End split_facts.

(** ** What the prepared arrays contain *)

Section prepared_facts.
Context {F rng : Type} `{!RandomState F rng}.
Implicit Types (data : list F) (X Y : list (list F)) (s : rng).
Implicit Types (g : Notebook.prepared (F:=F)).

(** Row [j] of the evaluation arrays is row [eval_index[j]] of the training
    arrays, for inputs and labels alike. *)
Lemma eval_rows data SEQLEN K s g s' j :
  Notebook.prepare data SEQLEN K s = Ok (g, s') → j < K →
  ∃ w x y, Notebook.eval_index g !! j = Some w ∧
    Notebook.traindata g !! w = Some x ∧ Notebook.labeldata g !! w = Some y ∧
    Notebook.joined_evaldata g !! j = Some (x, y) ∧
    Notebook.evaldata g !! j = Some x ∧ Notebook.evallabels g !! j = Some y.
Proof.
  intros (Hwin & Hsplit)%prepare_Ok_inv Hj.
  apply evaluation_split_Ok_inv in Hsplit as (_ & _ & _ & Hch & Hm & -> & ->).
  apply choice_indices in Hch as (Hlen & _ & _).
  apply mapM_Some in Hm.
  destruct (lookup_lt_is_Some_2 (Notebook.eval_index g) j) as [w Hw]; [lia|].
  destruct (Forall2_lookup_l _ _ _ _ _ Hm Hw) as ([x y] & Hje & Hz).
  apply lookup_zip_with_Some in Hz as (x' & y' & [= -> ->] & Hx & Hy).
  exists w, x', y'. rewrite !list_lookup_fmap, Hje. done.
Qed.

Lemma eval_lengths data SEQLEN K s g s' :
  Notebook.prepare data SEQLEN K s = Ok (g, s') →
  length (Notebook.eval_index g) = K ∧ length (Notebook.joined_evaldata g) = K ∧
  length (Notebook.evaldata g) = K ∧ length (Notebook.evallabels g) = K.
Proof.
  intros (Hwin & Hsplit)%prepare_Ok_inv.
  apply evaluation_split_Ok_inv in Hsplit as (_ & _ & _ & Hch & Hm & -> & ->).
  apply choice_indices in Hch as (Hlen & _ & _).
  apply length_mapM in Hm. rewrite !length_fmap. lia.
Qed.

Lemma prepare_Ok_intro data SEQLEN K s :
  0 < SEQLEN → length data `mod` SEQLEN = 0 → K ≤ length data / SEQLEN →
  is_Ok (Notebook.prepare data SEQLEN K s).
Proof.
  intros HL Hm HK. unfold Notebook.prepare.
  pose proof (windowing_Ok_intro data SEQLEN HL Hm) as Hwin. rewrite Hwin. simpl.
  apply evaluation_split_Ok_intro.
  - by eapply windows_same_shape.
  - by rewrite rows_of_length.
Qed.

Lemma window_row_elem_of n cols (a : list F) x v :
  x ∈ Np.rows_of n cols a → v ∈ x → v ∈ a.
Proof.
  intros [w Hw]%list_elem_of_lookup Hv.
  pose proof (lookup_lt_Some _ _ _ Hw) as Hlt. rewrite rows_of_length in Hlt.
  rewrite rows_of_lookup in Hw by done. injection Hw as <-.
  by apply subseteq_take, subseteq_drop in Hv.
Qed.
End prepared_facts.

(** ** The input functions *)

Section dataset_facts.
Context {E : Type}.

Lemma groups_concat fuel batch_size (ds : list E) :
  0 < batch_size → length ds ≤ fuel →
  concat (Dataset.groups fuel batch_size ds) = ds.
Proof.
  intros Hb. revert ds. induction fuel as [|fuel IH]; intros ds Hfuel.
  - destruct ds; [done|simpl in Hfuel; lia].
  - destruct ds as [|e ds]; [done|]. cbn [Dataset.groups concat].
    rewrite IH; [apply take_drop|].
    rewrite length_drop. simpl in *. lia.
Qed.

(** A non-empty dataset no longer than the batch size yields one batch. *)
Lemma groups_single fuel batch_size (ds : list E) :
  0 < fuel → ds ≠ [] → length ds ≤ batch_size →
  Dataset.groups fuel batch_size ds = [ds].
Proof.
  intros Hfuel Hne Hlen. destruct fuel as [|fuel]; [lia|].
  destruct ds as [|e ds]; [done|]. cbn [Dataset.groups].
  rewrite take_ge, drop_ge by done. by destruct fuel.
Qed.
End dataset_facts.

(** ** The generated corpus *)

Section generate_facts.
Context {F rng : Type} `{!RandomState F rng}.
Context {waveform : Type} (wave : waveform → nat → F → F).

Lemma time_series_from_length kind t datalen (s : rng) :
  length (Notebook.time_series_from wave kind t datalen s).1 = datalen.
Proof.
  revert t s. induction datalen as [|n IH]; intros t s; [done|].
  cbn [Notebook.time_series_from].
  destruct (rk_double s) as [noise s1].
  specialize (IH (S t) s1).
  destruct (Notebook.time_series_from wave kind (S t) n s1) as [rest s2].
  simpl in *. by rewrite IH.
Qed.

Lemma series_of_length Waveforms DATA_SEQ_LEN (s : rng) :
  length (Notebook.series_of wave Waveforms DATA_SEQ_LEN s).1 = length Waveforms.
Proof.
  revert s. induction Waveforms as [|kind kinds IH]; intros s; [done|].
  cbn [Notebook.series_of].
  destruct (Notebook.create_time_series wave kind DATA_SEQ_LEN s) as [x s1].
  specialize (IH s1).
  destruct (Notebook.series_of wave kinds DATA_SEQ_LEN s1) as [xs s2].
  simpl in *. by rewrite IH.
Qed.

Lemma series_of_concat_length Waveforms DATA_SEQ_LEN (s : rng) :
  length (concat (Notebook.series_of wave Waveforms DATA_SEQ_LEN s).1) =
  length Waveforms * DATA_SEQ_LEN.
Proof.
  revert s. induction Waveforms as [|kind kinds IH]; intros s; [done|].
  cbn [Notebook.series_of].
  pose proof (time_series_from_length kind 0 DATA_SEQ_LEN s) as Hx.
  unfold Notebook.create_time_series.
  destruct (Notebook.time_series_from wave kind 0 DATA_SEQ_LEN s) as [x s1].
  specialize (IH s1).
  destruct (Notebook.series_of wave kinds DATA_SEQ_LEN s1) as [xs s2].
  simpl in *. rewrite length_app, IH, Hx. done.
Qed.
End generate_facts.

(** ** Counting the outcomes of the shuffle *)

Section list_counting.
Context {D E : Type}.

Lemma filter_ext_in (P1 P2 : E → Prop)
    `{!∀ e, Decision (P1 e), !∀ e, Decision (P2 e)} (l : list E) :
  (∀ e, e ∈ l → P1 e ↔ P2 e) → filter P1 l = filter P2 l.
Proof.
  induction l as [|a l IH]; intros Hiff; [done|].
  rewrite !filter_cons, IH by (intros; apply Hiff; by right).
  apply decide_ext, Hiff. by left.
Qed.

Lemma filter_none (P : E → Prop) `{!∀ e, Decision (P e)} (l : list E) :
  (∀ e, e ∈ l → ¬ P e) → filter P l = [].
Proof.
  induction l as [|a l IH]; intros Hn; [done|].
  rewrite filter_cons_False by (apply Hn; by left).
  apply IH. intros e He. apply Hn. by right.
Qed.

Lemma length_filter_bind (P : E → Prop) `{!∀ e, Decision (P e)}
    (f : D → list E) (l : list D) :
  length (filter P (l ≫= f)) = sum_list ((λ d, length (filter P (f d))) <$> l).
Proof.
  induction l as [|d l IH]; [done|].
  rewrite bind_cons, filter_app, length_app, IH. done.
Qed.

Lemma length_filter_fmap (P : E → Prop) `{!∀ e, Decision (P e)}
    (f : D → E) (l : list D) :
  length (filter P (f <$> l)) = length (filter (P ∘ f) l).
Proof.
  induction l as [|d l IH]; [done|]. csimpl.
  rewrite !filter_cons. simpl. destruct (decide (P (f d))); simpl; by rewrite IH.
Qed.

Lemma length_bind_same (f : D → list E) (l : list D) c :
  (∀ d, length (f d) = c) → length (l ≫= f) = length l * c.
Proof.
  intros Hc. induction l as [|d l IH]; [done|].
  rewrite bind_cons, length_app, IH, Hc. simpl. lia.
Qed.

Lemma sum_list_with_same (f : E → nat) (l : list E) c :
  (∀ e, e ∈ l → f e = c) → sum_list_with f l = length l * c.
Proof.
  induction l as [|e l IH]; intros Hc; [done|]. simpl.
  rewrite Hc by (by left). rewrite IH; [done|].
  intros e' He'. apply Hc. by right.
Qed.

Lemma sum_list_fmap_with (f : E → nat) (l : list E) :
  sum_list (f <$> l) = sum_list_with f l.
Proof. induction l as [|e l IH]; [done|]. csimpl. by rewrite IH. Qed.
End list_counting.

Section counting.
Context {T : Type} `{!EqDecision T}.
Implicit Types (x y t : list T) (js : list nat).

Lemma lookup_seq_fmap x :
  (λ j, x !! j) <$> seq 0 (length x) = Some <$> x.
Proof.
  apply list_eq. intros k. rewrite !list_lookup_fmap.
  destruct (decide (k < length x)) as [Hk|Hk].
  - rewrite lookup_seq_lt by done. simpl.
    destruct (lookup_lt_is_Some_2 x k Hk) as [v Hv]. by rewrite Hv.
  - rewrite lookup_seq_ge, lookup_ge_None_2 by lia. done.
Qed.

(** Among the elements of a duplicate-free [x], those outside a
    duplicate-free sublist [t] number [length x - length t]. *)
Lemma sum_outside x t c :
  NoDup x → NoDup t → t ⊆ x →
  sum_list_with (λ v, if decide (v ∈ t) then 0 else c) x =
  (length x - length t) * c.
Proof.
  intros Hx Ht Hsub.
  destruct (submseteq_Permutation t x) as [k Hk]; [by apply NoDup_submseteq|].
  rewrite Hk, sum_list_with_app, length_app.
  rewrite Hk in Hx. apply NoDup_app in Hx as (_ & Hdisj & _).
  rewrite (sum_list_with_same _ t 0), (sum_list_with_same _ k c); [lia| |].
  - intros v Hv. rewrite decide_False; [done|]. intros Hvt. by eapply Hdisj.
  - intros v Hv. by rewrite decide_True.
Qed.

Lemma shuffle_replay_Permutation i x js : NpRandom.shuffle_replay i x js ≡ₚ x.
Proof.
  revert x js. induction i as [|i IH]; intros x js; [done|].
  destruct js as [|j js]; [done|]. simpl. rewrite IH. apply swap_Permutation.
Qed.

Lemma length_all_draws i : length (NpRandom.all_draws i) = fact (S i).
Proof.
  induction i as [|i IH]; [done|].
  cbn [NpRandom.all_draws]. rewrite (length_bind_same _ _ (fact (S i))).
  - rewrite length_seq. change (fact (S (S i))) with (S (S i) * fact (S i)). done.
  - intros j. by rewrite length_fmap.
Qed.

Lemma elem_of_all_draws_S i js :
  js ∈ NpRandom.all_draws (S i) ↔ ∃ j js', js = j :: js' ∧ j ≤ S i ∧ js' ∈ NpRandom.all_draws i.
Proof.
  cbn [NpRandom.all_draws]. rewrite list_elem_of_bind. split.
  - intros (j & (js' & -> & Hjs')%list_elem_of_fmap & Hj%elem_of_seq).
    exists j, js'. split_and!; [done|lia|done].
  - intros (j & js' & -> & Hj & Hjs'). exists j. split.
    + apply list_elem_of_fmap. eauto.
    + apply elem_of_seq. lia.
Qed.

Lemma swap_app x z i j :
  i < length x → j < length x →
  NpRandom.swap (x ++ z) i j = NpRandom.swap x i j ++ z.
Proof.
  intros Hi Hj. unfold NpRandom.swap.
  rewrite !lookup_app_l by done.
  destruct (x !! i) as [xi|]; [|done]. destruct (x !! j) as [xj|]; [|done].
  rewrite insert_app_l by done.
  rewrite insert_app_l by (by rewrite length_insert). done.
Qed.

(** After the exchange at the last index [m], the last entry is the drawn
    one and stays. *)
Lemma swap_last x m j v :
  length x = S m → x !! j = Some v →
  NpRandom.swap x m j = take m (NpRandom.swap x m j) ++ [v].
Proof.
  intros Hlen Hj.
  assert (Hlast : NpRandom.swap x m j !! m = Some v).
  { unfold NpRandom.swap.
    destruct (lookup_lt_is_Some_2 x m) as [xl Hl]; [lia|]. rewrite Hl, Hj.
    apply list_lookup_insert_eq. rewrite length_insert. lia. }
  assert (Hlen' : length (NpRandom.swap x m j) = S m).
  { by rewrite (Permutation_length (swap_Permutation x m j)). }
  rewrite <- (take_drop m (NpRandom.swap x m j)) at 1. f_equal.
  rewrite (drop_S _ v m Hlast), drop_ge by lia. done.
Qed.

Lemma shuffle_replay_app i y z js :
  length y = S i → js ∈ NpRandom.all_draws i →
  NpRandom.shuffle_replay i (y ++ z) js = NpRandom.shuffle_replay i y js ++ z.
Proof.
  revert y z js. induction i as [|i IH]; intros y z js Hlen Hjs; [done|].
  apply elem_of_all_draws_S in Hjs as (j & js' & -> & Hj & Hjs').
  cbn [NpRandom.shuffle_replay]. rewrite swap_app by lia.
  destruct (lookup_lt_is_Some_2 y j) as [v Hv]; [lia|].
  rewrite (swap_last y (S i) j v Hlen Hv).
  assert (length (take (S i) (NpRandom.swap y (S i) j)) = S i) as Hlen'.
  { rewrite length_take, (Permutation_length (swap_Permutation y (S i) j)). lia. }
  rewrite <- app_assoc. rewrite !IH by done. by rewrite <- app_assoc.
Qed.

Lemma shuffle_replay_S i x j js' v :
  length x = S (S i) → js' ∈ NpRandom.all_draws i → x !! j = Some v →
  NpRandom.shuffle_replay (S i) x (j :: js') =
  NpRandom.shuffle_replay i (take (S i) (NpRandom.swap x (S i) j)) js' ++ [v].
Proof.
  intros Hlen Hjs' Hv. cbn [NpRandom.shuffle_replay].
  rewrite (swap_last x (S i) j v Hlen Hv) at 1.
  apply shuffle_replay_app; [|done].
  rewrite length_take, (Permutation_length (swap_Permutation x (S i) j)). lia.
Qed.

Lemma hits_S i x K t :
  length x = S (S i) → K ≤ S i →
  NpRandom.hits (S i) x K t =
  sum_list ((λ j, NpRandom.hits i (take (S i) (NpRandom.swap x (S i) j)) K t)
            <$> seq 0 (S (S i))).
Proof.
  intros Hlen HK. unfold NpRandom.hits at 1. cbn [NpRandom.all_draws].
  rewrite length_filter_bind. f_equal. apply list_fmap_ext.
  intros k j Hk. apply lookup_seq in Hk as [-> Hk]. simpl.
  rewrite length_filter_fmap. unfold NpRandom.hits. f_equal.
  apply filter_ext_in. intros js' Hjs'. unfold compose.
  destruct (lookup_lt_is_Some_2 x k) as [v Hv]; [lia|].
  change (NpRandom.shuffle_replay i (NpRandom.swap x (S i) k) js')
    with (NpRandom.shuffle_replay (S i) x (k :: js')).
  rewrite (shuffle_replay_S i x k js' v Hlen Hjs' Hv).
  rewrite take_app_le; [done|].
  rewrite (Permutation_length (shuffle_replay_Permutation _ _ _)).
  rewrite length_take, (Permutation_length (swap_Permutation x (S i) k)). lia.
Qed.

Lemma hits_absent i y K t v : v ∈ t → v ∉ y → NpRandom.hits i y K t = 0.
Proof.
  intros Hvt Hvy. unfold NpRandom.hits. rewrite filter_none; [done|].
  intros js _ Heq. apply Hvy. rewrite <- Heq in Hvt.
  apply subseteq_take in Hvt. by rewrite shuffle_replay_Permutation in Hvt.
Qed.

(** When all entries are fixed, the last one is implied by the others. *)
Lemma hits_full i x t :
  0 < length x → NoDup x → NoDup t → length t = length x → t ⊆ x →
  NpRandom.hits i x (length x) t = NpRandom.hits i x (length x - 1) (take (length x - 1) t).
Proof.
  intros Hpos Hx Ht Hlen Hsub. unfold NpRandom.hits. f_equal.
  apply list_filter_iff. intros js.
  pose proof (shuffle_replay_Permutation i x js) as Hperm.
  pose proof (Permutation_length Hperm) as Hrl.
  set (r := NpRandom.shuffle_replay i x js) in *.
  rewrite (take_ge r) by lia. split; [by intros ->|].
  intros Hpre.
  assert (Htx : t ≡ₚ x).
  { apply submseteq_length_Permutation; [by apply NoDup_submseteq|lia]. }
  assert (Hrt : r ≡ₚ t) by (by rewrite Hperm, Htx).
  rewrite <- (take_drop (length x - 1) r), <- (take_drop (length x - 1) t) in Hrt.
  rewrite Hpre in Hrt. apply Permutation_app_inv_l in Hrt.
  destruct (lookup_lt_is_Some_2 r (length x - 1)) as [a Ha]; [lia|].
  destruct (lookup_lt_is_Some_2 t (length x - 1)) as [b Hb]; [lia|].
  rewrite (drop_S _ a _ Ha), (drop_S _ b _ Hb), !drop_ge in Hrt by lia.
  apply Permutation_singleton_inj in Hrt as ->.
  rewrite <- (take_drop (length x - 1) r), <- (take_drop (length x - 1) t).
  rewrite Hpre. f_equal.
  rewrite (drop_S _ b _ Ha), (drop_S _ b _ Hb), !drop_ge by lia. done.
Qed.

Lemma hits_count i x K t :
  length x = S i → NoDup x → K ≤ S i → length t = K → NoDup t → t ⊆ x →
  NpRandom.hits i x K t = fact (S i - K).
Proof.
  revert x K t. induction i as [|i IH]; intros x K t Hlen Hx HK Hlt Ht Hsub.
  - destruct x as [|a [|??]]; try done. unfold NpRandom.hits. simpl.
    destruct K as [|[|K]]; [| |lia].
    + destruct t; [|done]. by rewrite filter_cons_True.
    + destruct t as [|b [|??]]; try done.
      assert (b ∈ [a]) as ->%list_elem_of_singleton by (apply Hsub; by left).
      by rewrite filter_cons_True.
  - assert (Hsmall : ∀ K t, K ≤ S i → length t = K → NoDup t → t ⊆ x →
              NpRandom.hits (S i) x K t = fact (S (S i) - K)).
    { clear K t HK Hlt Ht Hsub. intros K t HK Hlt Ht Hsub.
      rewrite hits_S by done.
      rewrite <- Hlen at 1.
      rewrite (list_fmap_ext _
        ((λ o, match o with
               | Some v => if decide (v ∈ t) then 0 else fact (S i - K)
               | None => 0
               end) ∘ (λ j, x !! j))).
      2:{ intros k j Hk. apply lookup_seq in Hk as [-> Hk]. simpl.
          destruct (lookup_lt_is_Some_2 x k) as [v Hv]; [lia|]. rewrite Hv.
          pose proof (swap_last x (S i) k v Hlen Hv) as Hsw.
          pose proof (swap_Permutation x (S i) k) as Hperm.
          set (y := take (S i) (NpRandom.swap x (S i) k)) in *.
          rewrite Hsw in Hperm.
          assert (Hnd : NoDup (y ++ [v])) by (by rewrite Hperm).
          apply NoDup_app in Hnd as (Hy & Hdisj & _).
          assert (Hvy : v ∉ y).
          { intros Hin. apply (Hdisj v Hin). by left. }
          assert (Hyl : length y = S i).
          { apply Permutation_length in Hperm.
            rewrite length_app in Hperm. simpl in Hperm. lia. }
          case_decide as Hvt.
          - by apply (hits_absent i y K t v).
          - apply IH; try done.
            intros w Hw. specialize (Hsub w Hw). rewrite <- Hperm in Hsub.
            apply elem_of_app in Hsub as [?|Hwv]; [done|].
            apply list_elem_of_singleton in Hwv as ->. done. }
      rewrite list_fmap_compose, lookup_seq_fmap, <- list_fmap_compose.
      rewrite sum_list_fmap_with.
      etrans; [exact (sum_outside x t (fact (S i - K)) Hx Ht Hsub)|].
      rewrite Hlen, Hlt.
      replace (S (S i) - K) with (S (S i - K)) by lia.
      change (fact (S (S i - K))) with (S (S i - K) * fact (S i - K)). done. }
    destruct (decide (K ≤ S i)) as [Hle|Hgt]; [by apply Hsmall|].
    assert (K = S (S i)) as -> by lia.
    rewrite <- Hlen at 1. rewrite hits_full by (done || lia).
    rewrite Hlen. replace (S (S i) - 1) with (S i) by lia.
    rewrite Hsmall; [by replace (S (S i) - S i) with 1 by lia; rewrite Nat.sub_diag| | | |].
    + lia.
    + rewrite length_take. lia.
    + eapply sublist_NoDup; [done|apply sublist_take].
    + intros w Hw%subseteq_take. by apply Hsub.
Qed.
End counting.

(** ** The draws behind a sample *)

Section choice_replay_facts.
Context {F rng : Type} `{!RandomState F rng}.

Lemma shuffle_loop_replay {T} i (x : list T) (s : rng) :
  (NpRandom.shuffle_loop i x s).1 =
  NpRandom.shuffle_replay i x (NpRandom.draws i s).
Proof.
  revert x s. induction i as [|i IH]; intros x s; [done|].
  cbn [NpRandom.shuffle_loop NpRandom.draws].
  destruct (rk_interval (S i) s) as [j s1]. apply IH.
Qed.

Lemma draws_in_all_draws i (s : rng) :
  NpRandom.draws i s ∈ NpRandom.all_draws i.
Proof.
  revert s. induction i as [|i IH]; intros s; [by left|].
  apply elem_of_all_draws_S. cbn [NpRandom.draws].
  pose proof (rk_interval_le (S i) s) as Hle.
  destruct (rk_interval (S i) s) as [j s1]. eauto.
Qed.

Lemma choice_as_replay a size (s : rng) idx s' :
  NpRandom.choice a size s = Ok (idx, s') →
  idx = NpRandom.choice_replay a size (NpRandom.draws (a - 1) s).
Proof.
  intros (_ & -> & _)%choice_Ok_inv.
  unfold NpRandom.choice_replay, NpRandom.permutation, NpRandom.shuffle.
  by rewrite shuffle_loop_replay, length_seq.
Qed.
End choice_replay_facts.

(** Each ordered selection of [K] distinct indices below [a] is the outcome
    of the same number of draw lists. *)
Lemma choice_replay_count a K (t : list nat) :
  K ≤ a → length t = K → NoDup t → Forall (λ w, w < a) t →
  length (filter (λ js, NpRandom.choice_replay a K js = t)
            (NpRandom.all_draws (a - 1))) = fact (a - K).
Proof.
  intros HK Hlen Hnd Hlt. destruct a as [|m].
  - assert (K = 0) as -> by lia. by destruct t.
  - unfold NpRandom.choice_replay. simpl. rewrite Nat.sub_0_r.
    apply (hits_count m (seq 0 (S m)) K t); try done.
    + by rewrite length_seq.
    + apply NoDup_seq.
    + intros w Hw. apply elem_of_seq.
      rewrite Forall_forall in Hlt. specialize (Hlt w Hw). lia.
Qed.

(** Of the 24 draw lists for four windows, two select windows 3 and 1 in
    this order. *)
Example choice_replay_count_4_2 :
  length (NpRandom.all_draws 3) = 24 ∧
  filter (λ js, NpRandom.choice_replay 4 2 js = [3; 1]) (NpRandom.all_draws 3) =
    [[0; 2; 1]; [2; 0; 1]].
Proof. by vm_compute. Qed.

Lemma length_all_draws_pred a : length (NpRandom.all_draws (a - 1)) = fact a.
Proof.
  rewrite length_all_draws. destruct a as [|m]; [done|].
  by replace (S m - 1) with m by lia.
Qed.

(** ** The two data cells in sequence, and the evaluation input *)

Section run_facts.
Context {F rng : Type} `{!RandomState F rng}.
Context {waveform : Type} (wave : waveform → nat → F → F).

Lemma generate_Ok_intro (Waveforms : list waveform) N (s : rng) :
  Waveforms ≠ [] →
  ∃ data s', Notebook.generate wave Waveforms N s = Ok (data, s') ∧
    length data = length Waveforms * N.
Proof.
  intros Hne. unfold Notebook.generate.
  pose proof (series_of_concat_length wave Waveforms N s) as Hlen.
  pose proof (series_of_length wave Waveforms N s) as Hk.
  destruct (Notebook.series_of wave Waveforms N s) as [arrays s1]. simpl in *.
  destruct arrays as [|x xs]; [by destruct Waveforms|]. simpl. eauto.
Qed.

Lemma generate_Raise N (s : rng) :
  Notebook.generate wave [] N s = Raise ValueError_concatenate.
Proof. done. Qed.

(** The sample count of the cell is the per-kind length over the window
    length, whatever the number of kinds. *)
Lemma eval_sequences_eq N L : N * 4 / L / 4 = N / L.
Proof.
  rewrite Nat.Div0.div_div, (Nat.mul_comm L 4), (Nat.mul_comm N 4).
  by rewrite Nat.Div0.div_mul_cancel_l by lia.
Qed.

Lemma run_Ok_inv (Waveforms : list waveform) N L (s s' : rng) data g :
  Notebook.run wave Waveforms N L s = Ok (data, g, s') →
  Waveforms ≠ [] ∧ length data = length Waveforms * N ∧
  ∃ s1, Notebook.prepare data L (N * 4 / L / 4) s1 = Ok (g, s').
Proof.
  unfold Notebook.run. intros Hrun.
  destruct Waveforms as [|kind kinds]; [done|].
  destruct (generate_Ok_intro (kind :: kinds) N s) as (d & s1 & Hgen & Hlen);
    [done|].
  rewrite Hgen in Hrun. simpl in Hrun. rewrite prepare_cell_eq in Hrun.
  destruct (Notebook.prepare d L (N * 4 / L / 4) s1) as [[g' s2]|] eqn:Hprep;
    simpl in Hrun; [|done].
  injection Hrun as <- <- <-. eauto.
Qed.

(** An empty corpus comes from a per-kind length of zero, and then the
    shuffle buffer of the training input has size zero. *)
Lemma run_empty_corpus (Waveforms : list waveform) N L (s s' : rng) g :
  Notebook.run wave Waveforms N L s = Ok ([], g, s') → N * 4 / L = 0.
Proof.
  intros (Hne & Hlen & _)%run_Ok_inv. simpl in Hlen.
  assert (N = 0) as -> by (destruct Waveforms; [done|simpl in Hlen; lia]).
  by apply Nat.Div0.div_0_l.
Qed.
End run_facts.

Section eval_input_facts.
Context {F rng : Type} `{!RandomState F rng}.


End eval_input_facts.

(** ** Properties of the data preparation *)

(** C1. For a sequence whose length is a multiple of the window length, the
    windowing transform returns input and label windows such that inside
    every window the label at index [i] is the input at index [i+1], the
    last label of a window is the first input of the next window, and the
    last label of the final window is the first element of the whole
    sequence.  On [[0..7]] with windows of length 4 the inputs are
    [[0,1,2,3],[4,5,6,7]] and the labels [[1,2,3,4],[5,6,7,0]]. *)
Theorem windowing_labels_shifted :
  (∀ (F : Type) (data : list F) (L : nat),
     0 < L → length data `mod` L = 0 →
     ∃ X Y, Notebook.windowing data L = Ok (X, Y) ∧
       length X = length data / L ∧ length Y = length data / L ∧
       ∀ w x y, X !! w = Some x → Y !! w = Some y →
         length x = L ∧ length y = L ∧
         (∀ i, i + 1 < L → y !! i = x !! (i + 1)) ∧
         (∀ x', X !! (w + 1) = Some x' → y !! (L - 1) = x' !! 0) ∧
         (w + 1 = length data / L → y !! (L - 1) = data !! 0)) ∧
  Notebook.windowing [0; 1; 2; 3; 4; 5; 6; 7]%Z 4 =
    Ok ([[0; 1; 2; 3]; [4; 5; 6; 7]]%Z, [[1; 2; 3; 4]; [5; 6; 7; 0]]%Z).
Proof.
  split; [|reflexivity].
  intros F data L HL Hm.
  pose proof (windowing_Ok_intro data L HL Hm) as Hwin.
  eexists _, _. split; [exact Hwin|].
  destruct (window_lengths _ _ _ _ Hwin) as (HX & HY & HfX & HfY).
  split; [done|]. split; [done|].
  intros w x y Hx Hy. rewrite Forall_forall in HfX, HfY.
  split; [eauto using list_elem_of_lookup_2|].
  split; [eauto using list_elem_of_lookup_2|].
  exact (window_shift data L _ _ w x y Hwin Hx Hy).
Qed.

Lemma windowing_labels_shifted_witness :
  ∃ X Y, Notebook.windowing [3; 1; 4; 1; 5; 9]%Z 2 = Ok (X, Y) ∧
    length X = 3 ∧ length Y = 3 ∧
    ∀ w x y, X !! w = Some x → Y !! w = Some y →
      length x = 2 ∧ length y = 2 ∧
      (∀ i, i + 1 < 2 → y !! i = x !! (i + 1)) ∧
      (∀ x', X !! (w + 1) = Some x' → y !! (2 - 1) = x' !! 0) ∧
      (w + 1 = 3 → y !! (2 - 1) = [3; 1; 4; 1; 5; 9]%Z !! 0).
Proof.
  apply (proj1 windowing_labels_shifted Z [3; 1; 4; 1; 5; 9]%Z 2); [lia|reflexivity].
Defined.

(** C2. For a sequence whose length is a multiple of the window length, the
    input windows are [M/L] rows of length [L] whose concatenation, in
    order, is the source sequence. *)
Theorem windows_flatten_roundtrip (F : Type) (data : list F) (L : nat) :
  0 < L → length data `mod` L = 0 →
  ∃ X Y, Notebook.windowing data L = Ok (X, Y) ∧
    length X = length data / L ∧ Forall (λ x, length x = L) X ∧
    concat X = data.
Proof.
  intros HL Hm.
  pose proof (windowing_Ok_intro data L HL Hm) as Hwin.
  eexists _, _. split; [exact Hwin|].
  destruct (window_lengths _ _ _ _ Hwin) as (HX & _ & HfX & _).
  split; [done|]. split; [done|].
  apply rows_of_concat. pose proof (Nat.div_mod_eq (length data) L). lia.
Qed.

Lemma windows_flatten_roundtrip_witness :
  ∃ X Y, Notebook.windowing [3; 1; 4; 1; 5; 9]%Z 3 = Ok (X, Y) ∧
    length X = 2 ∧ Forall (λ x, length x = 3) X ∧
    concat X = [3; 1; 4; 1; 5; 9]%Z.
Proof.
  apply (windows_flatten_roundtrip Z [3; 1; 4; 1; 5; 9]%Z 3); [lia|reflexivity].
Defined.

(** C3. When the sample count [K] is at most the number of windows, the
    evaluation split returns with [K] sampled window indices, all in range
    and pairwise distinct, and with the [K] windows found at these indices.
    The indices are the first [K] entries of the shuffled index range, a
    function of the bounded draws the generator hands to the shuffle; over
    the [n!] possible lists of draws every ordered selection of [K]
    distinct indices comes out equally often, [(n-K)!] times: with uniform
    draws the sample is uniform and without replacement. *)
Theorem evaluation_sample_indices {F rng : Type} `{!RandomState F rng}
    (data : list F) (L K : nat) (s : rng) :
  0 < L → length data `mod` L = 0 → K ≤ length data / L →
  (∃ g s', Notebook.prepare data L K s = Ok (g, s') ∧
     length (Notebook.eval_index g) = K ∧
     NoDup (Notebook.eval_index g) ∧
     Forall (λ w, w < length data / L) (Notebook.eval_index g) ∧
     length (Notebook.joined_evaldata g) = K ∧
     length (Notebook.evaldata g) = K ∧ length (Notebook.evallabels g) = K ∧
     (∀ j w, Notebook.eval_index g !! j = Some w →
        Notebook.joined_evaldata g !! j = Notebook.joined_data g !! w) ∧
     Notebook.eval_index g =
       NpRandom.choice_replay (length data / L) K
         (NpRandom.draws (length data / L - 1) s) ∧
     NpRandom.draws (length data / L - 1) s ∈
       NpRandom.all_draws (length data / L - 1)) ∧
  length (NpRandom.all_draws (length data / L - 1)) = fact (length data / L) ∧
  (∀ t : list nat,
     length t = K → NoDup t → Forall (λ w, w < length data / L) t →
     length (filter (λ js, NpRandom.choice_replay (length data / L) K js = t)
               (NpRandom.all_draws (length data / L - 1))) =
     fact (length data / L - K)).
Proof.
  intros HL Hm HK. split; [|split].
  - destruct (prepare_Ok_intro data L K s HL Hm HK) as [[g s'] Hprep].
    exists g, s'. split; [done|].
    destruct (eval_lengths _ _ _ _ _ _ Hprep) as (Hidx & Hje & Hx & Hy).
    pose proof (prepare_Ok_inv _ _ _ _ _ _ Hprep) as (Hwin & Hsplit).
    destruct (window_lengths _ _ _ _ Hwin) as (HX & HY & _).
    apply evaluation_split_Ok_inv in Hsplit as (_ & _ & Hjd & Hch & _).
    assert (length (zip (Notebook.traindata g) (Notebook.labeldata g)) =
            length data / L) as Hn by (rewrite length_zip; lia).
    rewrite Hn in Hch.
    destruct (choice_indices _ _ _ _ _ Hch) as (_ & Hnd & Hrange).
    split_and!; try done.
    + intros j w Hw.
      pose proof (lookup_lt_Some _ _ _ Hw) as Hj. rewrite Hidx in Hj.
      destruct (eval_rows _ _ _ _ _ _ j Hprep Hj)
        as (w' & x & y & Hw' & Hx' & Hy' & Hrow & _).
      assert (w' = w) as -> by congruence.
      rewrite Hrow, Hjd. symmetry. apply lookup_zip_with_Some. eauto.
    + by eapply choice_as_replay.
    + apply draws_in_all_draws.
  - apply length_all_draws_pred.
  - intros t Hlen Hnd Hrange. by apply choice_replay_count.
Qed.

Lemma evaluation_sample_indices_witness :
  (∃ g s', Notebook.prepare Lcg.example_data 2 3 5 = Ok (g, s') ∧
     length (Notebook.eval_index g) = 3 ∧
     NoDup (Notebook.eval_index g) ∧
     Forall (λ w, w < length Lcg.example_data / 2) (Notebook.eval_index g) ∧
     length (Notebook.joined_evaldata g) = 3 ∧
     length (Notebook.evaldata g) = 3 ∧ length (Notebook.evallabels g) = 3 ∧
     (∀ j w, Notebook.eval_index g !! j = Some w →
        Notebook.joined_evaldata g !! j = Notebook.joined_data g !! w) ∧
     Notebook.eval_index g =
       NpRandom.choice_replay (length Lcg.example_data / 2) 3
         (NpRandom.draws (length Lcg.example_data / 2 - 1) 5) ∧
     NpRandom.draws (length Lcg.example_data / 2 - 1) 5 ∈
       NpRandom.all_draws (length Lcg.example_data / 2 - 1)) ∧
  length (NpRandom.all_draws (length Lcg.example_data / 2 - 1)) =
    fact (length Lcg.example_data / 2) ∧
  (∀ t : list nat,
     length t = 3 → NoDup t → Forall (λ w, w < length Lcg.example_data / 2) t →
     length (filter (λ js, NpRandom.choice_replay (length Lcg.example_data / 2) 3 js = t)
               (NpRandom.all_draws (length Lcg.example_data / 2 - 1))) =
     fact (length Lcg.example_data / 2 - 3)).
Proof.
  apply (evaluation_sample_indices Lcg.example_data 2 3 5);
    [lia|reflexivity|vm_compute; lia].
Defined.

(** C4. Sampling the evaluation windows leaves the training arrays as the
    windowing produced them: whatever the sample count and the generator
    state, the training pool is the list of all [M/L] (input, label) window
    pairs, and every sampled evaluation pair is one of its elements. *)
Theorem train_pool_keeps_all_windows {F rng : Type} `{!RandomState F rng}
    (data : list F) (L K : nat) (s s' : rng) (g : Notebook.prepared) :
  Notebook.prepare data L K s = Ok (g, s') →
  ∃ X Y, Notebook.windowing data L = Ok (X, Y) ∧
    Notebook.traindata g = X ∧ Notebook.labeldata g = Y ∧
    Notebook.train_pool g = Ok (zip X Y) ∧
    length (zip X Y) = length data / L ∧
    (∀ w x y, X !! w = Some x → Y !! w = Some y → zip X Y !! w = Some (x, y)) ∧
    (∀ j x y, Notebook.evaldata g !! j = Some x →
              Notebook.evallabels g !! j = Some y → (x, y) ∈ zip X Y).
Proof.
  intros Hprep.
  pose proof (prepare_Ok_inv _ _ _ _ _ _ Hprep) as (Hwin & _).
  destruct (window_lengths _ _ _ _ Hwin) as (HX & HY & _).
  exists (Notebook.traindata g), (Notebook.labeldata g).
  split_and!; try done.
  - unfold Notebook.train_pool, Dataset.from_tensor_slices.
    destruct (Nat.eqb_spec (length (Notebook.traindata g))
      (length (Notebook.labeldata g))); [done|lia].
  - rewrite length_zip. lia.
  - intros w x y Hx Hy. apply lookup_zip_with_Some. eauto.
  - intros j x y Hx Hy.
    pose proof (lookup_lt_Some _ _ _ Hx) as Hj.
    destruct (eval_lengths _ _ _ _ _ _ Hprep) as (_ & _ & HK & _).
    destruct (eval_rows _ _ _ _ _ _ j Hprep) as (w & x' & y' & _ & Hx' & Hy' & _ & Hex & Hey);
      [lia|].
    assert (x' = x) as -> by congruence. assert (y' = y) as -> by congruence.
    apply list_elem_of_lookup. exists w. apply lookup_zip_with_Some. eauto.
Qed.

Lemma train_pool_keeps_all_windows_witness :
  Notebook.prepare Lcg.example_data 2 3 5 = Ok (Lcg.example_prepared, 42) ∧
  ∃ X Y, Notebook.windowing Lcg.example_data 2 = Ok (X, Y) ∧
    Notebook.traindata Lcg.example_prepared = X ∧
    Notebook.labeldata Lcg.example_prepared = Y ∧
    Notebook.train_pool Lcg.example_prepared = Ok (zip X Y) ∧
    length (zip X Y) = length Lcg.example_data / 2 ∧
    (∀ w x y, X !! w = Some x → Y !! w = Some y → zip X Y !! w = Some (x, y)) ∧
    (∀ j x y, Notebook.evaldata Lcg.example_prepared !! j = Some x →
              Notebook.evallabels Lcg.example_prepared !! j = Some y →
              (x, y) ∈ zip X Y).
Proof.
  split; [reflexivity|].
  apply (train_pool_keeps_all_windows Lcg.example_data 2 3 5 42). reflexivity.
Defined.

(** C5. Every value in the training inputs, the training labels, the
    evaluation inputs and the evaluation labels is a value of the source
    sequence. *)
Theorem prepared_values_from_data {F rng : Type} `{!RandomState F rng}
    (data : list F) (L K : nat) (s s' : rng) (g : Notebook.prepared) :
  Notebook.prepare data L K s = Ok (g, s') →
  ∀ row v,
    row ∈ Notebook.traindata g ∨ row ∈ Notebook.labeldata g ∨
    row ∈ Notebook.evaldata g ∨ row ∈ Notebook.evallabels g →
    v ∈ row → v ∈ data.
Proof.
  intros Hprep.
  pose proof (prepare_Ok_inv _ _ _ _ _ _ Hprep) as (Hwin & _).
  destruct (windowing_Ok_inv _ _ _ _ Hwin) as (_ & _ & HX & HY).
  destruct (eval_lengths _ _ _ _ _ _ Hprep) as (_ & _ & HKx & HKy).
  assert (Htrain : ∀ row v, row ∈ Notebook.traindata g → v ∈ row → v ∈ data).
  { intros row v Hrow Hv. rewrite HX in Hrow. by eapply window_row_elem_of. }
  assert (Hlabel : ∀ row v, row ∈ Notebook.labeldata g → v ∈ row → v ∈ data).
  { intros row v Hrow Hv. rewrite HY in Hrow.
    eapply roll_elem_of. by eapply window_row_elem_of. }
  intros row v [Hrow|[Hrow|[Hrow|Hrow]]] Hv; [by eauto|by eauto|..].
  - apply list_elem_of_lookup in Hrow as [j Hj].
    pose proof (lookup_lt_Some _ _ _ Hj) as Hlt.
    destruct (eval_rows _ _ _ _ _ _ j Hprep) as (w & x & y & _ & Hx & _ & _ & Hex & _);
      [lia|].
    assert (x = row) as -> by congruence.
    eapply Htrain; [|done]. by eapply list_elem_of_lookup_2.
  - apply list_elem_of_lookup in Hrow as [j Hj].
    pose proof (lookup_lt_Some _ _ _ Hj) as Hlt.
    destruct (eval_rows _ _ _ _ _ _ j Hprep) as (w & x & y & _ & _ & Hy & _ & _ & Hey);
      [lia|].
    assert (y = row) as -> by congruence.
    eapply Hlabel; [|done]. by eapply list_elem_of_lookup_2.
Qed.

Lemma prepared_values_from_data_witness :
  Notebook.prepare Lcg.example_data 2 3 5 = Ok (Lcg.example_prepared, 42) ∧
  ∀ row v,
    row ∈ Notebook.traindata Lcg.example_prepared ∨
    row ∈ Notebook.labeldata Lcg.example_prepared ∨
    row ∈ Notebook.evaldata Lcg.example_prepared ∨
    row ∈ Notebook.evallabels Lcg.example_prepared →
    v ∈ row → v ∈ Lcg.example_data.
Proof.
  split; [reflexivity|].
  apply (prepared_values_from_data Lcg.example_data 2 3 5 42). reflexivity.
Defined.

(** The notebook sets no seed: what the two data cells produce depends on
    the state in which they find the global generator. *)
Example runs_depend_on_generator_state :
  Notebook.run Lcg.wave [Lcg.SINE1; Lcg.SINE2] 4 2 5 ≠
  Notebook.run Lcg.wave [Lcg.SINE1; Lcg.SINE2] 4 2 6.
Proof. vm_compute. intros [=]. Qed.

(** C8. For every non-empty list of waveform kinds and every
    per-kind length [N] the corpus is generated and has exactly
    [len(kinds) * N] values. *)
Theorem corpus_length {F rng : Type} `{!RandomState F rng} {waveform : Type}
    (wave : waveform → nat → F → F) (Waveforms : list waveform) (N : nat) (s : rng) :
  Waveforms ≠ [] →
  ∃ data s', Notebook.generate wave Waveforms N s = Ok (data, s') ∧
    length data = length Waveforms * N.
Proof.
  intros Hne. unfold Notebook.generate.
  pose proof (series_of_concat_length wave Waveforms N s) as Hlen.
  pose proof (series_of_length wave Waveforms N s) as Hk.
  destruct (Notebook.series_of wave Waveforms N s) as [arrays s1]. simpl in *.
  destruct arrays as [|x xs].
  - destruct Waveforms; [done|discriminate].
  - simpl. eauto.
Qed.

Lemma corpus_length_witness :
  ∃ data s', Notebook.generate Lcg.wave [Lcg.SINE1; Lcg.SINE2] 8 5 = Ok (data, s') ∧
    length data = length [Lcg.SINE1; Lcg.SINE2] * 8.
Proof. apply (corpus_length Lcg.wave [Lcg.SINE1; Lcg.SINE2] 8 5). discriminate. Defined.

(** With no waveform kind at all, [np.concatenate] rejects the empty list:
    no corpus (of length [0 * N] or other) is produced. *)
Lemma corpus_of_no_kinds :
  Notebook.generate Lcg.wave [] 8 5 = Raise ValueError_concatenate ∧
  ¬ ∃ data s', Notebook.generate Lcg.wave [] 8 5 = Ok (data, s') ∧
      length data = length (@nil Lcg.kind) * 8.
Proof. split; [reflexivity|]. intros (data & s' & [=] & _). Qed.

(** C9. With at least one evaluation window, an evaluation
    pass gets exactly one batch, made of all [K] evaluation windows and
    their labels in order; the next request finds the stream exhausted. *)
Theorem eval_dataset_single_batch {F rng : Type} `{!RandomState F rng}
    (data : list F) (L K : nat) (s s' : rng) (g : Notebook.prepared) :
  Notebook.prepare data L K s = Ok (g, s') → 0 < K →
  ∃ it it', Notebook.eval_dataset g K = Ok it ∧
    Notebook.next_batch it =
      (Ok (Notebook.evaldata g, Notebook.evallabels g), it') ∧
    length (Notebook.evaldata g) = K ∧ length (Notebook.evallabels g) = K ∧
    Forall (λ x, length x = L) (Notebook.evaldata g) ∧
    Notebook.next_batch it' = (Raise OutOfRangeError, []).
Proof.
  intros Hprep HK.
  destruct (eval_lengths _ _ _ _ _ _ Hprep) as (_ & Hje & Hx & Hy).
  pose proof (prepare_Ok_inv _ _ _ _ _ _ Hprep) as (Hwin & Hsplit).
  apply evaluation_split_Ok_inv in Hsplit as (_ & _ & _ & _ & _ & Hex & Hey).
  exists [Notebook.joined_evaldata g], [].
  split_and!; try done.
  - unfold Notebook.eval_dataset, Dataset.from_tensor_slices.
    rewrite Hx, Hy, Nat.eqb_refl. simpl.
    unfold Dataset.batch, Dataset.repeat. simpl. rewrite app_nil_r.
    destruct (Nat.eqb_spec K 0); [lia|].
    rewrite Hex, Hey, zip_fst_snd. f_equal.
    apply groups_single; [lia| |lia].
    intros Hnil. rewrite Hnil in Hje. simpl in Hje. lia.
  - unfold Notebook.next_batch. simpl. by rewrite Hex, Hey.
  - apply Forall_forall. intros x [j Hj]%list_elem_of_lookup.
    pose proof (lookup_lt_Some _ _ _ Hj) as Hlt.
    destruct (eval_rows _ _ _ _ _ _ j Hprep) as (w & x' & y' & _ & Hx' & _ & _ & Hej & _);
      [lia|].
    assert (x' = x) as -> by congruence.
    destruct (window_lengths _ _ _ _ Hwin) as (_ & _ & HfX & _).
    rewrite Forall_forall in HfX. by eapply HfX, list_elem_of_lookup_2.
Qed.

Lemma eval_dataset_single_batch_witness :
  ∃ it it', Notebook.eval_dataset Lcg.example_prepared 3 = Ok it ∧
    Notebook.next_batch it =
      (Ok (Notebook.evaldata Lcg.example_prepared,
           Notebook.evallabels Lcg.example_prepared), it') ∧
    length (Notebook.evaldata Lcg.example_prepared) = 3 ∧
    length (Notebook.evallabels Lcg.example_prepared) = 3 ∧
    Forall (λ x, length x = 2) (Notebook.evaldata Lcg.example_prepared) ∧
    Notebook.next_batch it' = (Raise OutOfRangeError, []).
Proof.
  apply (eval_dataset_single_batch Lcg.example_data 2 3 5 42);
    [reflexivity|lia].
Defined.

(** With an evaluation sample count of zero (which does not exceed the
    number of windows) the preparation succeeds with an empty evaluation
    subset; [batch(0)] is rejected, and an empty subset would fill no batch
    of any size: the evaluation pass gets no batch. *)
Lemma eval_dataset_no_batch :
  ∃ g s', Notebook.prepare Lcg.example_data 4 0 5 = Ok (g, s') ∧
    Notebook.evaldata g = [] ∧ Notebook.evallabels g = [] ∧
    Notebook.eval_dataset g 0 = Raise InvalidArgumentError ∧
    Dataset.batch 1 (zip (Notebook.evaldata g) (Notebook.evallabels g)) = Ok [] ∧
    ¬ ∃ it it', Notebook.eval_dataset g 0 = Ok it ∧
        Notebook.next_batch it =
          (Ok (Notebook.evaldata g, Notebook.evallabels g), it').
Proof.
  eexists _, _. split; [reflexivity|]. repeat (split; [reflexivity|]).
  intros (it & it' & [=] & _).
Qed.

(** C10. Evaluation inputs and labels stay paired: position [j] of the
    evaluation arrays holds the input window and the label window of one
    and the same source window [w], the [j]-th sampled index; so the label
    at index [i] is the input at index [i+1], and the last label is the
    source value that follows the window (cyclically). *)
Theorem eval_pairs_aligned {F rng : Type} `{!RandomState F rng}
    (data : list F) (L K : nat) (s s' : rng) (g : Notebook.prepared) :
  Notebook.prepare data L K s = Ok (g, s') →
  length (Notebook.evaldata g) = K ∧ length (Notebook.evallabels g) = K ∧
  ∀ j, j < K →
    ∃ w x y, Notebook.eval_index g !! j = Some w ∧
      Notebook.evaldata g !! j = Some x ∧ Notebook.evallabels g !! j = Some y ∧
      Notebook.traindata g !! w = Some x ∧ Notebook.labeldata g !! w = Some y ∧
      length x = L ∧ length y = L ∧
      (∀ i, i + 1 < L → y !! i = x !! (i + 1)) ∧
      y !! (L - 1) = data !! (((w + 1) * L) `mod` length data).
Proof.
  intros Hprep.
  destruct (eval_lengths _ _ _ _ _ _ Hprep) as (_ & _ & Hx & Hy).
  split; [done|]. split; [done|]. intros j Hj.
  destruct (eval_rows _ _ _ _ _ _ j Hprep Hj) as (w & x & y & Hw & Hx' & Hy' & _ & Hex & Hey).
  exists w, x, y.
  pose proof (prepare_Ok_inv _ _ _ _ _ _ Hprep) as (Hwin & _).
  destruct (window_lengths _ _ _ _ Hwin) as (_ & _ & HfX & HfY).
  rewrite Forall_forall in HfX, HfY.
  destruct (windowing_Ok_inv _ _ _ _ Hwin) as (HL & _).
  split_and!; try done.
  - by eapply HfX, list_elem_of_lookup_2.
  - by eapply HfY, list_elem_of_lookup_2.
  - by apply (window_shift _ _ _ _ _ _ _ Hwin Hx' Hy').
  - rewrite (label_window_lookup _ _ _ _ _ _ (L - 1) Hwin Hy') by lia.
    do 2 f_equal. lia.
Qed.

Lemma eval_pairs_aligned_witness :
  length (Notebook.evaldata Lcg.example_prepared) = 3 ∧
  length (Notebook.evallabels Lcg.example_prepared) = 3 ∧
  ∀ j, j < 3 →
    ∃ w x y, Notebook.eval_index Lcg.example_prepared !! j = Some w ∧
      Notebook.evaldata Lcg.example_prepared !! j = Some x ∧
      Notebook.evallabels Lcg.example_prepared !! j = Some y ∧
      Notebook.traindata Lcg.example_prepared !! w = Some x ∧
      Notebook.labeldata Lcg.example_prepared !! w = Some y ∧
      length x = 2 ∧ length y = 2 ∧
      (∀ i, i + 1 < 2 → y !! i = x !! (i + 1)) ∧
      y !! (2 - 1) = Lcg.example_data !! (((w + 1) * 2) `mod` length Lcg.example_data).
Proof.
  apply (eval_pairs_aligned Lcg.example_data 2 3 5 42). reflexivity.
Defined.

(** ** Indexing and slicing *)

Unset Default Proof Using.

Section py_facts.
Context {T : Type}.
Implicit Types (l : list T).

(** Entry [-k] for [k ≥ 1] is the entry [k] places before the end. *)
Lemma item_from_end l k :
  0 < k → k ≤ length l →
  Tf.item l (- Z.of_nat k) = l !! (length l - k).
Proof.
  intros Hk Hle. unfold Tf.item.
  destruct (Z.ltb_spec (- Z.of_nat k) 0) as [_|?]; [|lia].
  destruct (Z.ltb_spec (- Z.of_nat k + Z.of_nat (length l)) 0) as [?|_]; [lia|].
  destruct (Z.leb_spec (Z.of_nat (length l)) (- Z.of_nat k + Z.of_nat (length l)))
    as [?|_]; [lia|]. simpl.
  f_equal. lia.
Qed.

Lemma item_from_end_None l k :
  length l < k → Tf.item l (- Z.of_nat k) = None.
Proof.
  intros Hlt. unfold Tf.item.
  destruct (Z.ltb_spec (- Z.of_nat k) 0) as [_|?]; [|lia].
  destruct (Z.ltb_spec (- Z.of_nat k + Z.of_nat (length l)) 0) as [_|?]; [done|lia].
Qed.

Lemma item_from_end_Some l k v :
  0 < k →
  Tf.item l (- Z.of_nat k) = Some v ↔ k ≤ length l ∧ l !! (length l - k) = Some v.
Proof.
  intros Hk. destruct (decide (k ≤ length l)) as [Hle|Hgt].
  - rewrite item_from_end by done. split; [done|by intros [_ ?]].
  - rewrite item_from_end_None by lia. split; [done|lia].
Qed.

(** [l[-n:stop]] with [stop] at or beyond the end keeps the last [n]
    entries, and everything when [n] is zero or exceeds the length. *)
Lemma slice_from_end l n stop :
  length l ≤ stop →
  Py.slice l (- Z.of_nat n) (Z.of_nat stop) =
  drop (if n =? 0 then 0 else length l - n) l.
Proof.
  intros Hstop. unfold Py.slice, Py.adjust.
  destruct (Z.ltb_spec (Z.of_nat stop) 0) as [?|_]; [lia|].
  rewrite Nat2Z.id, Nat.min_r by done.
  destruct (Nat.eqb_spec n 0) as [->|Hn]; simpl.
  - rewrite Nat.sub_0_r, drop_0. apply take_ge. lia.
  - destruct (Z.ltb_spec (- Z.of_nat n) 0) as [_|?]; [|lia].
    replace (Z.to_nat (Z.max (- Z.of_nat n + Z.of_nat (length l)) 0))
      with (length l - n) by lia.
    apply take_ge. rewrite length_drop. lia.
Qed.
End py_facts.

Section tf_facts.
Context {T : Type}.
Implicit Types (X : list (list T)).

Lemma in_bounds_from_end width k :
  0 < k → Tf.in_bounds width (- Z.of_nat k) = bool_decide (k ≤ width).
Proof.
  intros Hk. unfold Tf.in_bounds.
  destruct (Z.ltb_spec (- Z.of_nat k) 0) as [_|?]; [|lia].
  case_bool_decide.
  - destruct (Z.ltb_spec (- Z.of_nat k + Z.of_nat width) 0); [lia|].
    destruct (Z.leb_spec (Z.of_nat width) (- Z.of_nat k + Z.of_nat width));
      [lia|done].
  - destruct (Z.ltb_spec (- Z.of_nat k + Z.of_nat width) 0); [done|lia].
Qed.

Lemma rectangular_Forall width X :
  Tf.rectangular width X = true ↔ Forall (λ row, length row = width) X.
Proof.
  unfold Tf.rectangular. induction X as [|row X IH]; simpl.
  - split; [constructor|done].
  - rewrite andb_true_iff, IH, Forall_cons, Nat.eqb_eq. done.
Qed.

(** [X[:, -k]] for [k ≥ 1] needs [k] columns and takes from every row
    the entry [k] places before its end. *)
Lemma column_from_end_Some width X k ys :
  0 < k →
  Tf.column width X (- Z.of_nat k) = Some ys ↔
  k ≤ width ∧ Forall (λ row, length row = width) X ∧
  Forall2 (λ row y, row !! (width - k) = Some y) X ys.
Proof.
  intros Hk. unfold Tf.column. rewrite in_bounds_from_end by done.
  case_bool_decide as Hle; simpl.
  2:{ split; [done|]. intros (? & _). lia. }
  destruct (Tf.rectangular width X) eqn:Hrect.
  2:{ split; [done|]. intros (_ & Hall%rectangular_Forall & _). congruence. }
  apply rectangular_Forall in Hrect. rewrite mapM_Some.
  assert (Hiff : ∀ zs,
    Forall2 (λ row y, Tf.item row (- Z.of_nat k) = Some y) X zs ↔
    Forall2 (λ row y, row !! (width - k) = Some y) X zs).
  { induction Hrect as [|row X Hrow _ IH]; intros zs.
    - split; intros ->%Forall2_nil_inv_l; constructor.
    - split; intros (y & zs' & Hy & Hzs & ->)%Forall2_cons_inv_l;
        (constructor; [|by apply IH]).
      + rewrite item_from_end in Hy by lia. by rewrite Hrow in Hy.
      + rewrite item_from_end by lia. by rewrite Hrow. }
  rewrite Hiff. split; [done|]. by intros (_ & _ & ?).
Qed.

(** It is rejected when the tensor has fewer than [k] columns, whatever
    the number of rows. *)
Lemma column_from_end_None width X k :
  0 < k → width < k → Tf.column width X (- Z.of_nat k) = None.
Proof.
  intros Hk Hlt. unfold Tf.column. rewrite in_bounds_from_end by done.
  case_bool_decide; [lia|done].
Qed.

Lemma column_ragged_None width X i :
  ¬ Forall (λ row, length row = width) X → Tf.column width X i = None.
Proof.
  intros Hn. unfold Tf.column.
  destruct (Tf.rectangular width X) eqn:Hrect.
  - by apply rectangular_Forall in Hrect.
  - by rewrite andb_false_r.
Qed.

Lemma column_from_end_total width X k :
  0 < k → k ≤ width → Forall (λ row, length row = width) X →
  ∃ ys, Tf.column width X (- Z.of_nat k) = Some ys.
Proof.
  intros Hk Hle Hall. unfold Tf.column. rewrite in_bounds_from_end by done.
  rewrite bool_decide_eq_true_2 by done.
  rewrite (proj2 (rectangular_Forall width X) Hall). simpl.
  apply mapM_is_Some. eapply Forall_impl; [done|]. simpl.
  intros row Hrow. rewrite item_from_end by lia.
  apply lookup_lt_is_Some_2. lia.
Qed.

Lemma column_length width X i ys :
  Tf.column width X i = Some ys → length ys = length X.
Proof.
  unfold Tf.column. destruct (_ && _); [|done]. by intros Hm%length_mapM.
Qed.
End tf_facts.

Section roll_facts.
Context {T : Type}.
Implicit Types (a : list T).

(** [np.roll(a, shift)[i] = a[(i - shift) mod n]] *)
Lemma roll_lookup a shift i :
  i < length a →
  Np.roll a shift !! i =
  a !! Z.to_nat ((Z.of_nat i - shift) `mod` Z.of_nat (length a)).
Proof.
  intros Hi. unfold Np.roll.
  set (n := length a) in *. replace (Nat.max n 1) with n by lia.
  pose proof (Z.mod_pos_bound shift (Z.of_nat n) ltac:(lia)) as Ho.
  set (o := Z.to_nat (shift `mod` Z.of_nat n)).
  assert (Hoz : Z.of_nat o = (shift `mod` Z.of_nat n)%Z) by lia.
  assert (Heq : ((Z.of_nat i - shift) `mod` Z.of_nat n =
                 (Z.of_nat i - Z.of_nat o) `mod` Z.of_nat n)%Z).
  { rewrite Hoz, Zminus_mod_idemp_r. done. }
  rewrite Heq. destruct (decide (i < o)) as [Hlt|Hge].
  - rewrite lookup_app_l by (rewrite length_drop; lia).
    rewrite lookup_drop. f_equal.
    assert (((Z.of_nat i - Z.of_nat o) `mod` Z.of_nat n =
             Z.of_nat i - Z.of_nat o + Z.of_nat n)%Z) as ->; [|lia].
    symmetry. apply (Z.mod_unique _ _ (-1)); lia.
  - rewrite lookup_app_r by (rewrite length_drop; lia).
    rewrite length_drop, lookup_take_lt by lia. f_equal.
    rewrite Z.mod_small by lia. lia.
Qed.

Lemma roll_roll a j k : Np.roll (Np.roll a j) k = Np.roll a (j + k).
Proof.
  apply list_eq_same_length with (length a); rewrite ?roll_length; [done..|].
  intros i x y Hi. rewrite !roll_lookup by (rewrite ?roll_length; lia).
  rewrite roll_length.
  assert (0 < Z.of_nat (length a))%Z as Hn by lia.
  pose proof (Z.mod_pos_bound (Z.of_nat i - k) _ Hn).
  rewrite roll_lookup by lia. rewrite Z2Nat.id by lia.
  rewrite Zminus_mod_idemp_l.
  replace (Z.of_nat i - k - j)%Z with (Z.of_nat i - (j + k))%Z by lia.
  rewrite (roll_lookup a (j + k)) by done. congruence.
Qed.

Lemma roll_multiple a q : Np.roll a (q * Z.of_nat (length a)) = a.
Proof.
  destruct a as [|x a]; [done|].
  apply list_eq_same_length with (length (x :: a)); rewrite ?roll_length; [done..|].
  intros i y z Hi. rewrite roll_lookup by done.
  replace (Z.of_nat i - q * Z.of_nat (length (x :: a)))%Z
    with (Z.of_nat i + (- q) * Z.of_nat (length (x :: a)))%Z by lia.
  rewrite Z_mod_plus_full, Z.mod_small, Nat2Z.id by lia. congruence.
Qed.
End roll_facts.

(** ** Further properties *)

(** X1. Rolling by [j] and then by [k] is rolling by [j + k]; rolling back
    by the opposite shift, or by any multiple of the length, gives the
    array itself. *)
Theorem roll_compose {T : Type} (a : list T) (j k q : Z) :
  Np.roll (Np.roll a j) k = Np.roll a (j + k) ∧
  Np.roll (Np.roll a j) (- j) = a ∧
  Np.roll a (q * Z.of_nat (length a)) = a.
Proof.
  split_and!.
  - apply roll_roll.
  - rewrite roll_roll, Z.add_opp_diag_r.
    apply (roll_multiple a 0).
  - apply roll_multiple.
Qed.

(** X2. Read in order, the label windows are the source sequence rotated
    left by one: rotating them right by one gives the source back, so the
    labels hold every sample exactly as often as the source does. *)
Theorem label_windows_flatten {F : Type} (data : list F) (L : nat)
    (X Y : list (list F)) :
  Notebook.windowing data L = Ok (X, Y) →
  concat Y = Np.roll data (-1) ∧
  Np.roll (concat Y) 1 = data ∧
  concat Y ≡ₚ data.
Proof.
  intros (HL & Hlen & _ & ->)%windowing_Ok_inv.
  assert (Hcat : concat (Np.rows_of (length data / L) L (Np.roll data (-1))) =
                 Np.roll data (-1)).
  { apply rows_of_concat. by rewrite roll_length. }
  rewrite Hcat. split_and!; [done| |].
  - rewrite roll_roll. apply (roll_multiple data 0).
  - rewrite roll_minus_one. rewrite <- (take_drop 1 data) at 3.
    apply Permutation_app_comm.
Qed.

Lemma label_windows_flatten_witness :
  concat [[1; 2; 3; 4]; [5; 6; 7; 0]]%Z = Np.roll Lcg.example_data (-1) ∧
  Np.roll (concat [[1; 2; 3; 4]; [5; 6; 7; 0]]%Z) 1 = Lcg.example_data ∧
  concat [[1; 2; 3; 4]; [5; 6; 7; 0]]%Z ≡ₚ Lcg.example_data.
Proof.
  apply (label_windows_flatten Lcg.example_data 4
           [[0; 1; 2; 3]; [4; 5; 6; 7]]%Z).
  reflexivity.
Defined.

(** X3. The two data cells in sequence fail in two ways only: without any
    waveform kind [np.concatenate] raises, and with a window length that
    is zero or does not divide the corpus length the reshape raises.
    Otherwise they return; in particular the sample count the cell
    computes never exceeds the number of windows, and its division by
    [SEQLEN] never divides by zero. *)
Theorem run_outcome {F rng : Type} `{!RandomState F rng} {waveform : Type}
    (wave : waveform → nat → F → F) (Waveforms : list waveform)
    (N L : nat) (s : rng) :
  (Waveforms = [] →
     Notebook.run wave Waveforms N L s = Raise ValueError_concatenate) ∧
  (Waveforms ≠ [] → ¬ (0 < L ∧ (length Waveforms * N) `mod` L = 0) →
     Notebook.run wave Waveforms N L s = Raise ValueError_reshape) ∧
  (Waveforms ≠ [] → 0 < L → (length Waveforms * N) `mod` L = 0 →
     ∃ data g s', Notebook.run wave Waveforms N L s = Ok (data, g, s')).
Proof.
  split_and!.
  - intros ->. done.
  - intros Hne Hn. unfold Notebook.run.
    destruct (generate_Ok_intro wave Waveforms N s Hne) as (data & s1 & -> & Hlen).
    simpl. rewrite prepare_cell_eq. unfold Notebook.prepare.
    rewrite windowing_Raise by (by rewrite Hlen). done.
  - intros Hne HL Hm. unfold Notebook.run.
    destruct (generate_Ok_intro wave Waveforms N s Hne) as (data & s1 & -> & Hlen).
    simpl. rewrite prepare_cell_eq.
    destruct (prepare_Ok_intro data L (N * 4 / L / 4) s1) as [[g s2] ->];
      [done|by rewrite Hlen| |simpl; eauto].
    rewrite eval_sequences_eq, Hlen. apply Nat.Div0.div_le_mono.
    destruct Waveforms; [done|]. simpl. lia.
Qed.

Lemma run_outcome_witness :
  Notebook.run Lcg.wave [] 8 4 5 = Raise ValueError_concatenate ∧
  Notebook.run Lcg.wave [Lcg.SINE1; Lcg.SINE2] 5 4 5 = Raise ValueError_reshape ∧
  ∃ data g s', Notebook.run Lcg.wave [Lcg.SINE1; Lcg.SINE2] 8 4 5 = Ok (data, g, s').
Proof.
  split_and!.
  - by apply (proj1 (run_outcome Lcg.wave [] 8 4 5)).
  - apply (proj1 (proj2 (run_outcome Lcg.wave [Lcg.SINE1; Lcg.SINE2] 5 4 5)));
      [done|]. vm_compute. intros [_ [=]].
  - apply (proj2 (proj2 (run_outcome Lcg.wave [Lcg.SINE1; Lcg.SINE2] 8 4 5)));
      [done|lia|reflexivity].
Defined.

(** X4. After a successful run the corpus has [len(kinds) * N] samples,
    there are [len(kinds) * N / SEQLEN] training windows and [N / SEQLEN]
    evaluation windows; with four kinds the evaluation subset is a
    quarter of the windows. *)
Theorem run_sizes {F rng : Type} `{!RandomState F rng} {waveform : Type}
    (wave : waveform → nat → F → F) (Waveforms : list waveform)
    (N L : nat) (s s' : rng) (data : list F) (g : Notebook.prepared) :
  Notebook.run wave Waveforms N L s = Ok (data, g, s') →
  length data = length Waveforms * N ∧
  length (Notebook.traindata g) = length Waveforms * N / L ∧
  length (Notebook.labeldata g) = length Waveforms * N / L ∧
  length (Notebook.evaldata g) = N / L ∧
  length (Notebook.evallabels g) = N / L ∧
  (length Waveforms = 4 →
     length (Notebook.evaldata g) = length (Notebook.traindata g) / 4).
Proof.
  unfold Notebook.run. intros Hrun.
  destruct Waveforms as [|kind kinds]; [done|].
  destruct (generate_Ok_intro wave (kind :: kinds) N s) as (d & s1 & Hgen & Hlen);
    [done|].
  rewrite Hgen in Hrun. simpl in Hrun. rewrite prepare_cell_eq in Hrun.
  destruct (Notebook.prepare d L (N * 4 / L / 4) s1) as [[g' s2]|] eqn:Hprep;
    simpl in Hrun; [|done].
  injection Hrun as <- <- <-.
  destruct (eval_lengths _ _ _ _ _ _ Hprep) as (_ & _ & Hx & Hy).
  pose proof (prepare_Ok_inv _ _ _ _ _ _ Hprep) as (Hwin & _).
  destruct (window_lengths _ _ _ _ Hwin) as (HX & HY & _).
  rewrite eval_sequences_eq in Hx, Hy. rewrite Hlen in HX, HY.
  split_and!; try done.
  intros H4. rewrite Hx, HX, H4.
  by rewrite <- eval_sequences_eq, (Nat.mul_comm 4 N).
Qed.

Lemma run_sizes_witness :
  ∃ data g s',
    Notebook.run Lcg.wave [Lcg.SINE1; Lcg.SINE2; Lcg.SINE1; Lcg.SINE2] 4 2 5 =
      Ok (data, g, s') ∧
    length data = 4 * 4 ∧
    length (Notebook.traindata g) = 4 * 4 / 2 ∧
    length (Notebook.labeldata g) = 4 * 4 / 2 ∧
    length (Notebook.evaldata g) = 4 / 2 ∧
    length (Notebook.evallabels g) = 4 / 2 ∧
    (length [Lcg.SINE1; Lcg.SINE2; Lcg.SINE1; Lcg.SINE2] = 4 →
       length (Notebook.evaldata g) = length (Notebook.traindata g) / 4).
Proof.
  eexists _, _, _. split; [reflexivity|].
  eapply (run_sizes Lcg.wave [Lcg.SINE1; Lcg.SINE2; Lcg.SINE1; Lcg.SINE2] 4 2 5).
  reflexivity.
Defined.

(** ** The model functions *)

Section model_facts.
Context {F tfrng : Type}.
Context (fadd fsub fmul : F → F → F).
Context (random_uniform : tfrng → F * tfrng).
Implicit Types (X : list (list F)).

Lemma random_uniform_vector_length n (g : tfrng) :
  length (Models.random_uniform_vector random_uniform n g).1 = n.
Proof.
  revert g. induction n as [|n IH]; intros g; [done|]. simpl.
  destruct (random_uniform g) as [v g1]. specialize (IH g1).
  destruct (Models.random_uniform_vector random_uniform n g1). simpl in *.
  by rewrite IH.
Qed.

Lemma columns_from_end X n stop :
  Forall (λ row, length row ≤ stop) X →
  Tf.columns X (- Z.of_nat n) (Z.of_nat stop) =
  (λ row, drop (if n =? 0 then 0 else length row - n) row) <$> X.
Proof.
  intros Hall. unfold Tf.columns. apply list_fmap_ext.
  intros i row Hrow. apply slice_from_end.
  rewrite Forall_forall in Hall. by eapply Hall, list_elem_of_lookup_2.
Qed.

Lemma column_last_lookup width X ys b row :
  Tf.column width X (-1) = Some ys → X !! b = Some row →
  1 ≤ width ∧ length row = width ∧ ys !! b = row !! (width - 1).
Proof.
  change (-1)%Z with (- Z.of_nat 1)%Z.
  intros (Hle & Hall & Hcol)%column_from_end_Some Hb; [|lia].
  destruct (Forall2_lookup_l _ _ _ _ _ Hcol Hb) as (y & Hy & Hrow).
  rewrite Forall_forall in Hall.
  split_and!; [done|by eapply Hall, list_elem_of_lookup_2|congruence].
Qed.
End model_facts.

Section simplistic_facts.
Context {F tfrng : Type} (fadd fsub : F → F → F).
Context (random_uniform : tfrng → F * tfrng).

Lemma simplistic_models_Some_intro (SEQLEN : nat) (X : list (list F)) (g : tfrng) :
  2 ≤ SEQLEN → Forall (λ row, length row = SEQLEN) X →
  ∃ Yrnd Ysal Ytfl g',
    Models.simplistic_models fadd fsub random_uniform SEQLEN X g =
      Some (Yrnd, Ysal, Ytfl, g') ∧
    length Yrnd = length X ∧ length Ysal = length X ∧
    length Ytfl = length X ∧
    ∀ b row, X !! b = Some row →
      ∃ last prev,
        row !! (SEQLEN - 1) = Some last ∧
        row !! (SEQLEN - 2) = Some prev ∧
        Ysal !! b = Some last ∧
        Ytfl !! b = Some (fadd last (fsub last prev)).
Proof.
  unfold Models.simplistic_models.
  pose proof (random_uniform_vector_length random_uniform (length X) g) as Hrnd.
  destruct (Models.random_uniform_vector random_uniform (length X) g) as [Yrnd g'].
  simpl in Hrnd. intros HL Hall.
  destruct (column_from_end_total SEQLEN X 1) as [Ysal HYsal]; [lia|lia|done|].
  destruct (column_from_end_total SEQLEN X 2) as [prev Hprev]; [lia|lia|done|].
  change (-1)%Z with (- Z.of_nat 1)%Z. change (-2)%Z with (- Z.of_nat 2)%Z.
  rewrite HYsal, Hprev. simpl.
  exists Yrnd, Ysal, (zip_with fadd Ysal (zip_with fsub Ysal prev)), g'.
  pose proof (column_length _ _ _ _ HYsal) as HlS.
  pose proof (column_length _ _ _ _ Hprev) as HlP.
  apply column_from_end_Some in HYsal as (_ & _ & HYsal); [|lia].
  apply column_from_end_Some in Hprev as (_ & _ & Hprev); [|lia].
  split_and!; try done.
  - rewrite !length_zip_with. lia.
  - intros b row Hb.
    destruct (Forall2_lookup_l _ _ _ _ _ HYsal Hb) as (last & Hlast & Hrl).
    destruct (Forall2_lookup_l _ _ _ _ _ Hprev Hb) as (pv & Hpv & Hrp).
    exists last, pv. split_and!; try done.
    rewrite !lookup_zip_with, Hlast, Hpv. done.
Qed.

Lemma simplistic_models_None (SEQLEN : nat) (X : list (list F)) (g : tfrng) :
  SEQLEN < 2 ∨ ¬ Forall (λ row, length row = SEQLEN) X →
  Models.simplistic_models fadd fsub random_uniform SEQLEN X g = None.
Proof.
  unfold Models.simplistic_models.
  destruct (Models.random_uniform_vector random_uniform (length X) g) as [Yrnd g'].
  intros Hex.
  destruct (Tf.column SEQLEN X (-1)) as [Ysal|] eqn:HYsal; simpl; [|done].
  change (-2)%Z with (- Z.of_nat 2)%Z.
  destruct Hex as [Hlt|Hrag].
  - rewrite column_from_end_None; [done|lia|done].
  - by rewrite column_ragged_None.
Qed.
End simplistic_facts.



(** X6. On sequences of length [SEQLEN ≥ 1] the bad model returns, for
    every sequence, the single value [last * dummy]: output shape
    [[BATCHSIZE, 1]]. *)
Theorem bad_model_last_item {F : Type} (fmul : F → F → F) (SEQLEN : nat)
    (dummy : F) (X : list (list F)) :
  0 < SEQLEN → Forall (λ row, length row = SEQLEN) X →
  length (Models.bad_model fmul SEQLEN dummy X) = length X ∧
  ∀ b row, X !! b = Some row →
    ∃ last, row !! (SEQLEN - 1) = Some last ∧
      Models.bad_model fmul SEQLEN dummy X !! b = Some [fmul last dummy].
Proof.
  intros HL Hall. unfold Models.bad_model.
  change (-1)%Z with (- Z.of_nat 1)%Z.
  rewrite columns_from_end.
  2:{ apply Forall_fmap. eapply Forall_impl; [done|]. simpl.
      intros row Hrow. rewrite length_fmap. lia. }
  split; [by rewrite !length_fmap|].
  intros b row Hb. rewrite Forall_forall in Hall.
  pose proof (Hall row (list_elem_of_lookup_2 _ _ _ Hb)) as Hlen.
  destruct (lookup_lt_is_Some_2 row (SEQLEN - 1)) as [last Hlast]; [lia|].
  exists last. split; [done|].
  rewrite !list_lookup_fmap, Hb. simpl. f_equal.
  rewrite length_fmap, Hlen, <- fmap_drop.
  rewrite (drop_S _ last _ Hlast), drop_ge by lia. done.
Qed.

Lemma bad_model_last_item_witness :
  length (Models.bad_model Z.mul 3 2%Z [[1; 2; 3]; [4; 5; 6]]%Z) = 2 ∧
  ∀ b row, [[1; 2; 3]; [4; 5; 6]]%Z !! b = Some row →
    ∃ last, row !! (3 - 1) = Some last ∧
      Models.bad_model Z.mul 3 2%Z [[1; 2; 3]; [4; 5; 6]]%Z !! b =
        Some [(last * 2)%Z].
Proof.
  apply (bad_model_last_item Z.mul 3 2%Z [[1; 2; 3]; [4; 5; 6]]%Z); [lia|].
  by repeat constructor.
Defined.

Section rnn_facts.
Context {F : Type}.

Lemma RNN_model_eq (SEQLEN : nat) (regression : list (list F) → list (list F))
    (X : list (list F)) (n : nat) :
  Forall (λ r, length r = SEQLEN) (regression X) →
  Models.RNN_model SEQLEN regression X n =
    drop (if n =? 0 then 0 else SEQLEN - n) <$> regression X.
Proof.
  intros Hall. unfold Models.RNN_model. rewrite columns_from_end.
  - apply list_fmap_ext. intros i r Hr. rewrite Forall_forall in Hall.
    by rewrite (Hall r (list_elem_of_lookup_2 _ _ _ Hr)).
  - eapply Forall_impl; [done|]. simpl. lia.
Qed.

Lemma RNN_model_widths (SEQLEN : nat) (regression : list (list F) → list (list F))
    (X : list (list F)) (n : nat) :
  Forall (λ r, length r = SEQLEN) (regression X) →
  Forall (λ r, length r = if n =? 0 then SEQLEN else Nat.min n SEQLEN)
    (Models.RNN_model SEQLEN regression X n).
Proof.
  intros Hall. rewrite RNN_model_eq by done.
  apply Forall_fmap. eapply Forall_impl; [done|].
  simpl. intros r Hr. rewrite length_drop, Hr.
  destruct (Nat.eqb_spec n 0); lia.
Qed.
End rnn_facts.

(** X7. The recurrent model keeps the last [n] predictions of each
    sequence when [1 ≤ n ≤ SEQLEN]; with [n = 0] the slice [-0:SEQLEN]
    keeps all of them.  Hence with [n = SEQLEN // 2] the output has
    [SEQLEN // 2] columns, except one column when [SEQLEN = 1]. *)
Theorem RNN_model_last_items {F : Type} (SEQLEN : nat)
    (regression : list (list F) → list (list F)) (X : list (list F)) (n : nat) :
  Forall (λ r, length r = SEQLEN) (regression X) →
  Models.RNN_model SEQLEN regression X n =
    drop (if n =? 0 then 0 else SEQLEN - n) <$> regression X ∧
  Forall (λ r, length r = if n =? 0 then SEQLEN else Nat.min n SEQLEN)
    (Models.RNN_model SEQLEN regression X n) ∧
  Forall (λ r, length r = if SEQLEN =? 1 then 1 else SEQLEN / 2)
    (Models.RNN_model_N SEQLEN regression X).
Proof.
  intros Hall.
  split_and!; [by apply RNN_model_eq|by apply RNN_model_widths|].
  unfold Models.RNN_model_N.
  eapply Forall_impl; [by apply RNN_model_widths|]. cbv beta.
  intros r ->.
  destruct (Nat.eqb_spec SEQLEN 1) as [->|H1]; [done|].
  pose proof (Nat.div_mod_eq SEQLEN 2) as Hdm.
  pose proof (Nat.mod_upper_bound SEQLEN 2) as Hmod.
  destruct (Nat.eqb_spec (SEQLEN / 2) 0) as [H0|H0]; lia.
Qed.

Lemma RNN_model_last_items_witness :
  Models.RNN_model 3 id [[1; 2; 3]; [4; 5; 6]]%Z 0 =
    drop 0 <$> [[1; 2; 3]; [4; 5; 6]]%Z ∧
  Forall (λ r, length r = 3) (Models.RNN_model 3 id [[1; 2; 3]; [4; 5; 6]]%Z 0) ∧
  Forall (λ r, length r = 1) (Models.RNN_model_N 3 id [[1; 2; 3]; [4; 5; 6]]%Z).
Proof.
  apply (RNN_model_last_items 3 id [[1; 2; 3]; [4; 5; 6]]%Z 0).
  by repeat constructor.
Defined.

Section model_fn_facts.
Context {F tfrng Loss TrainOp Metric : Type} (fadd fsub : F → F → F).
Context (random_uniform : tfrng → F * tfrng).
Context (mean_squared_error : list (list F) → list (list F) → option Loss).
Context (create_train_op : Loss → option TrainOp).
Context (root_mean_squared_error : list (list F) → list (list F) → option Metric).
Context (root_mean_squared_error_1 : list F → list F → option Metric).

Lemma last_labels_eq (SEQLEN p : nat) (labels : list (list F)) :
  Forall (λ r, length r = SEQLEN) labels → 0 < p →
  Tf.columns labels (- Z.of_nat p) (Z.of_nat SEQLEN) =
  drop (SEQLEN - p) <$> labels.
Proof.
  intros Hlab Hp. rewrite columns_from_end.
  2:{ eapply Forall_impl; [done|]. simpl. lia. }
  destruct (Nat.eqb_spec p 0); [lia|].
  apply list_fmap_ext. intros i row Hrow. rewrite Forall_forall in Hlab.
  by rewrite (Hlab row (list_elem_of_lookup_2 _ _ _ Hrow)).
Qed.

Lemma last_labels_shape (SEQLEN p : nat) (Y labels : list (list F)) :
  Forall (λ r, length r = SEQLEN) labels →
  Forall (λ r, length r = p) Y → length Y = length labels → p ≤ SEQLEN →
  length <$> (drop (SEQLEN - p) <$> labels) = length <$> Y.
Proof.
  intros Hlab HY Hlen HpL.
  apply list_eq_same_length with (length labels);
    rewrite ?length_fmap; [done..|].
  intros i n m Hi. rewrite !list_lookup_fmap.
  intros (r & (row & Hrow & ->)%fmap_Some & ->)%fmap_Some
         (y & Hy & ->)%fmap_Some.
  rewrite Forall_forall in Hlab, HY.
  rewrite length_drop, (Hlab row), (HY y);
    eauto using list_elem_of_lookup_2. lia.
Qed.

Lemma RNN_model_width_eq (SEQLEN n : nat) :
  Models.RNN_model_width SEQLEN n = if n =? 0 then SEQLEN else Nat.min n SEQLEN.
Proof.
  unfold Models.RNN_model_width, Py.adjust.
  destruct (Z.ltb_spec (Z.of_nat SEQLEN) 0) as [?|_]; [lia|].
  destruct (Nat.eqb_spec n 0) as [->|Hn].
  - simpl. lia.
  - destruct (Z.ltb_spec (- Z.of_nat n) 0) as [_|?]; lia.
Qed.

(** Training or evaluating on matrices of the right widths: no index is
    rejected, and what remains is the framework's work on the targets. *)
Lemma configurable_model_fn_train (SEQLEN p : nat)
    (model : list (list F) → list (list F))
    (features labels : list (list F)) (mode : Models.ModeKeys) (g : tfrng) :
  mode ≠ Models.PREDICT → 2 ≤ SEQLEN → 0 < p → p ≤ SEQLEN →
  Forall (λ r, length r = SEQLEN) features →
  Forall (λ r, length r = SEQLEN) labels →
  Forall (λ r, length r = p) (model features) →
  ∃ Yout last_label Yrnd Ysal Ytfl g',
    Models.simplistic_models fadd fsub random_uniform SEQLEN features g =
      Some (Yrnd, Ysal, Ytfl, g') ∧
    (∀ b row, model features !! b = Some row → Yout !! b = row !! (p - 1)) ∧
    (∀ b row, labels !! b = Some row → last_label !! b = row !! (SEQLEN - 1)) ∧
    Models.configurable_model_fn fadd fsub random_uniform mean_squared_error
      create_train_op root_mean_squared_error root_mean_squared_error_1
      SEQLEN model p features labels mode g =
    (l ← mean_squared_error (model features) (drop (SEQLEN - p) <$> labels);
     op ← create_train_op l;
     RMSE ← root_mean_squared_error (model features)
              (drop (SEQLEN - p) <$> labels);
     RMSErnd ← root_mean_squared_error_1 Yrnd last_label;
     RMSEsal ← root_mean_squared_error_1 Ysal last_label;
     RMSEtfl ← root_mean_squared_error_1 Ytfl last_label;
     Some ({| Models.mode := mode; Models.predictions := Yout;
              Models.loss := Some l; Models.train_op := Some op;
              Models.eval_metric_ops :=
                Some (RMSE, RMSErnd, RMSEsal, RMSEtfl) |}, g')).
Proof.
  intros Hmode HL Hp HpL Hfeat Hlab HY.
  destruct (column_from_end_total p (model features) 1) as [Yout HYout];
    [lia|lia|done|].
  destruct (column_from_end_total SEQLEN labels 1) as [ll Hll]; [lia|lia|done|].
  destruct (simplistic_models_Some_intro fadd fsub random_uniform SEQLEN
              features g HL Hfeat) as (Yrnd & Ysal & Ytfl & g' & Hsimple & _).
  exists Yout, ll, Yrnd, Ysal, Ytfl, g'. split_and!; [done| | |].
  - intros b row Hb.
    by destruct (column_last_lookup _ _ _ _ _ HYout Hb) as (_ & _ & ->).
  - intros b row Hb.
    by destruct (column_last_lookup _ _ _ _ _ Hll Hb) as (_ & _ & ->).
  - unfold Models.configurable_model_fn.
    change (-1)%Z with (- Z.of_nat 1)%Z. rewrite HYout. cbn [mbind option_bind].
    rewrite last_labels_eq by done.
    destruct mode; [| |done]; rewrite Hll; cbn [mbind option_bind].
    all: destruct (mean_squared_error _ _) as [l|]; cbn [mbind option_bind];
      [|done].
    all: destruct (create_train_op l) as [op|]; cbn [mbind option_bind]; [|done].
    all: by rewrite Hsimple.
Qed.

Lemma configurable_model_fn_None (SEQLEN p : nat)
    (model : list (list F) → list (list F))
    (features labels : list (list F)) (mode : Models.ModeKeys) (g : tfrng) :
  p = 0 ∨ (mode ≠ Models.PREDICT ∧ SEQLEN < 2) →
  Models.configurable_model_fn fadd fsub random_uniform mean_squared_error
    create_train_op root_mean_squared_error root_mean_squared_error_1
    SEQLEN model p features labels mode g = None.
Proof.
  unfold Models.configurable_model_fn. intros [->|[Hmode HL]].
  - change (-1)%Z with (- Z.of_nat 1)%Z.
    by rewrite (column_from_end_None 0 (model features) 1) by lia.
  - destruct (Tf.column p (model features) (-1)) as [Yout|]; [|done].
    cbn [mbind option_bind]. destruct mode; [| |done].
    all: destruct (Tf.column SEQLEN labels (-1)) as [ll|];
      cbn [mbind option_bind]; [|done].
    all: destruct (mean_squared_error _ _) as [l|]; cbn [mbind option_bind];
      [|done].
    all: destruct (create_train_op l) as [op|]; cbn [mbind option_bind]; [|done].
    all: rewrite simplistic_models_None; [done|by left].
Qed.

Lemma configurable_model_fn_predict (SEQLEN p : nat)
    (model : list (list F) → list (list F))
    (features labels : list (list F)) (g : tfrng) :
  0 < p → Forall (λ r, length r = p) (model features) →
  ∃ Yout,
    Models.configurable_model_fn fadd fsub random_uniform mean_squared_error
      create_train_op root_mean_squared_error root_mean_squared_error_1
      SEQLEN model p features labels Models.PREDICT g =
    Some ({| Models.mode := Models.PREDICT; Models.predictions := Yout;
             Models.loss := None; Models.train_op := None;
             Models.eval_metric_ops := None |}, g) ∧
    length Yout = length (model features) ∧
    ∀ b row, model features !! b = Some row → Yout !! b = row !! (p - 1).
Proof.
  intros Hp Hall. unfold Models.configurable_model_fn.
  destruct (column_from_end_total p (model features) 1) as [Yout HYout];
    [lia|lia|done|].
  change (-1)%Z with (- Z.of_nat 1)%Z. rewrite HYout. cbn [mbind option_bind].
  exists Yout. split_and!; [done|by eapply column_length|].
  intros b row Hb.
  by destruct (column_last_lookup _ _ _ _ _ HYout Hb) as (_ & _ & ->).
Qed.
End model_fn_facts.

(** X8. When training or evaluating on sequences of [SEQLEN ≥ 2] samples
    with a model whose output has [p] columns, [1 ≤ p ≤ SEQLEN], no index
    of the model function is rejected, and the function returns exactly
    when the framework accepts the loss, the training operation and the
    four metrics.  The loss and the first metric compare the model output
    with the last [p] labels of every sequence, which have the same
    shape; the baselines are compared with the last label; the
    prediction is the last column of the model output. *)
Theorem model_fn_targets {F tfrng Loss TrainOp Metric : Type}
    (fadd fsub : F → F → F) (random_uniform : tfrng → F * tfrng)
    (mean_squared_error : list (list F) → list (list F) → option Loss)
    (create_train_op : Loss → option TrainOp)
    (root_mean_squared_error : list (list F) → list (list F) → option Metric)
    (root_mean_squared_error_1 : list F → list F → option Metric)
    (SEQLEN p : nat) (model : list (list F) → list (list F))
    (features labels : list (list F)) (mode : Models.ModeKeys) (g : tfrng) :
  mode ≠ Models.PREDICT → 2 ≤ SEQLEN → 0 < p → p ≤ SEQLEN →
  Forall (λ r, length r = SEQLEN) features →
  Forall (λ r, length r = SEQLEN) labels →
  Forall (λ r, length r = p) (model features) →
  length (model features) = length labels →
  length <$> (drop (SEQLEN - p) <$> labels) = length <$> model features ∧
  ∃ Yout last_label Yrnd Ysal Ytfl g',
    Models.simplistic_models fadd fsub random_uniform SEQLEN features g =
      Some (Yrnd, Ysal, Ytfl, g') ∧
    (∀ b row, model features !! b = Some row → Yout !! b = row !! (p - 1)) ∧
    (∀ b row, labels !! b = Some row → last_label !! b = row !! (SEQLEN - 1)) ∧
    Models.configurable_model_fn fadd fsub random_uniform mean_squared_error
      create_train_op root_mean_squared_error root_mean_squared_error_1
      SEQLEN model p features labels mode g =
    (l ← mean_squared_error (model features) (drop (SEQLEN - p) <$> labels);
     op ← create_train_op l;
     RMSE ← root_mean_squared_error (model features)
              (drop (SEQLEN - p) <$> labels);
     RMSErnd ← root_mean_squared_error_1 Yrnd last_label;
     RMSEsal ← root_mean_squared_error_1 Ysal last_label;
     RMSEtfl ← root_mean_squared_error_1 Ytfl last_label;
     Some ({| Models.mode := mode; Models.predictions := Yout;
              Models.loss := Some l; Models.train_op := Some op;
              Models.eval_metric_ops :=
                Some (RMSE, RMSErnd, RMSEsal, RMSEtfl) |}, g')).
Proof.
  intros Hmode HL Hp HpL Hfeat Hlab HY Hlen. split.
  - by apply last_labels_shape.
  - by apply configurable_model_fn_train.
Qed.

Lemma model_fn_targets_witness :
  length <$> (drop (3 - 1) <$> [[2; 3; 4]; [5; 6; 7]]%Z) =
    length <$> Models.bad_model Z.mul 3 1%Z [[1; 2; 3]; [4; 5; 6]]%Z ∧
  ∃ Yout last_label Yrnd Ysal Ytfl g',
    Models.simplistic_models Z.add Z.sub TfLcg.random_uniform 3
      [[1; 2; 3]; [4; 5; 6]]%Z 7 = Some (Yrnd, Ysal, Ytfl, g') ∧
    (∀ b row,
       Models.bad_model Z.mul 3 1%Z [[1; 2; 3]; [4; 5; 6]]%Z !! b = Some row →
       Yout !! b = row !! (1 - 1)) ∧
    (∀ b row, [[2; 3; 4]; [5; 6; 7]]%Z !! b = Some row →
       last_label !! b = row !! (3 - 1)) ∧
    Models.configurable_model_fn Z.add Z.sub TfLcg.random_uniform
      TfLcg.mean_squared_error TfLcg.create_train_op
      TfLcg.root_mean_squared_error TfLcg.root_mean_squared_error_1
      3 (Models.bad_model Z.mul 3 1%Z) 1
      [[1; 2; 3]; [4; 5; 6]]%Z [[2; 3; 4]; [5; 6; 7]]%Z Models.TRAIN 7 =
    (l ← TfLcg.mean_squared_error
           (Models.bad_model Z.mul 3 1%Z [[1; 2; 3]; [4; 5; 6]]%Z)
           (drop (3 - 1) <$> [[2; 3; 4]; [5; 6; 7]]%Z);
     op ← TfLcg.create_train_op l;
     RMSE ← TfLcg.root_mean_squared_error
              (Models.bad_model Z.mul 3 1%Z [[1; 2; 3]; [4; 5; 6]]%Z)
              (drop (3 - 1) <$> [[2; 3; 4]; [5; 6; 7]]%Z);
     RMSErnd ← TfLcg.root_mean_squared_error_1 Yrnd last_label;
     RMSEsal ← TfLcg.root_mean_squared_error_1 Ysal last_label;
     RMSEtfl ← TfLcg.root_mean_squared_error_1 Ytfl last_label;
     Some ({| Models.mode := Models.TRAIN; Models.predictions := Yout;
              Models.loss := Some l; Models.train_op := Some op;
              Models.eval_metric_ops :=
                Some (RMSE, RMSErnd, RMSEsal, RMSEtfl) |}, g')).
Proof.
  apply (model_fn_targets Z.add Z.sub TfLcg.random_uniform
           TfLcg.mean_squared_error TfLcg.create_train_op
           TfLcg.root_mean_squared_error TfLcg.root_mean_squared_error_1
           3 1 (Models.bad_model Z.mul 3 1%Z)
           [[1; 2; 3]; [4; 5; 6]]%Z [[2; 3; 4]; [5; 6; 7]]%Z Models.TRAIN 7);
    try done; try lia; by repeat constructor.
Defined.

(** X9. With sequences of fewer than two samples the model function
    cannot train or evaluate, whatever the model and the batch: the trend
    baseline reads the sample before the last, and the call raises.
    Predicting reads neither the labels nor the baselines: it returns the
    last column of the model output when that output has at least one
    column.  A model output without columns is rejected in every mode,
    also on a batch without sequences. *)
Theorem model_fn_short_sequences {F tfrng Loss TrainOp Metric : Type}
    (fadd fsub : F → F → F) (random_uniform : tfrng → F * tfrng)
    (mean_squared_error : list (list F) → list (list F) → option Loss)
    (create_train_op : Loss → option TrainOp)
    (root_mean_squared_error : list (list F) → list (list F) → option Metric)
    (root_mean_squared_error_1 : list F → list F → option Metric)
    (SEQLEN p : nat) (model : list (list F) → list (list F))
    (features labels : list (list F)) (mode : Models.ModeKeys) (g : tfrng) :
  (mode ≠ Models.PREDICT → SEQLEN < 2 →
     Models.configurable_model_fn fadd fsub random_uniform mean_squared_error
       create_train_op root_mean_squared_error root_mean_squared_error_1
       SEQLEN model p features labels mode g = None) ∧
  (p = 0 →
     Models.configurable_model_fn fadd fsub random_uniform mean_squared_error
       create_train_op root_mean_squared_error root_mean_squared_error_1
       SEQLEN model p features labels mode g = None) ∧
  (mode = Models.PREDICT → 0 < p →
   Forall (λ r, length r = p) (model features) →
     ∃ Yout,
       Models.configurable_model_fn fadd fsub random_uniform mean_squared_error
         create_train_op root_mean_squared_error root_mean_squared_error_1
         SEQLEN model p features labels mode g =
       Some ({| Models.mode := Models.PREDICT; Models.predictions := Yout;
                Models.loss := None; Models.train_op := None;
                Models.eval_metric_ops := None |}, g) ∧
       length Yout = length (model features) ∧
       ∀ b row, model features !! b = Some row → Yout !! b = row !! (p - 1)).
Proof.
  split_and!.
  - intros Hmode HL. apply configurable_model_fn_None. by right.
  - intros Hp. apply configurable_model_fn_None. by left.
  - intros -> Hp Hall. by apply configurable_model_fn_predict.
Qed.

Lemma model_fn_short_sequences_witness :
  Models.configurable_model_fn Z.add Z.sub TfLcg.random_uniform
    TfLcg.mean_squared_error TfLcg.create_train_op
    TfLcg.root_mean_squared_error TfLcg.root_mean_squared_error_1
    1 (Models.bad_model Z.mul 1 1%Z) 1 [] [] Models.EVAL 7 = None ∧
  Models.configurable_model_fn Z.add Z.sub TfLcg.random_uniform
    TfLcg.mean_squared_error TfLcg.create_train_op
    TfLcg.root_mean_squared_error TfLcg.root_mean_squared_error_1
    0 (Models.bad_model Z.mul 0 1%Z) 0 [] [] Models.PREDICT 7 = None ∧
  ∃ Yout,
    Models.configurable_model_fn Z.add Z.sub TfLcg.random_uniform
      TfLcg.mean_squared_error TfLcg.create_train_op
      TfLcg.root_mean_squared_error TfLcg.root_mean_squared_error_1
      1 (Models.bad_model Z.mul 1 1%Z) 1 [[3]; [4]]%Z [] Models.PREDICT 7 =
    Some ({| Models.mode := Models.PREDICT; Models.predictions := Yout;
             Models.loss := None; Models.train_op := None;
             Models.eval_metric_ops := None |}, 7) ∧
    length Yout = length (Models.bad_model Z.mul 1 1%Z [[3]; [4]]%Z) ∧
    ∀ b row, Models.bad_model Z.mul 1 1%Z [[3]; [4]]%Z !! b = Some row →
      Yout !! b = row !! (1 - 1).
Proof.
  split_and!.
  - apply (proj1 (model_fn_short_sequences Z.add Z.sub TfLcg.random_uniform
                    TfLcg.mean_squared_error TfLcg.create_train_op
                    TfLcg.root_mean_squared_error
                    TfLcg.root_mean_squared_error_1
                    1 1 (Models.bad_model Z.mul 1 1%Z) [] [] Models.EVAL 7));
      [done|lia].
  - apply (proj1 (proj2 (model_fn_short_sequences Z.add Z.sub
                    TfLcg.random_uniform
                    TfLcg.mean_squared_error TfLcg.create_train_op
                    TfLcg.root_mean_squared_error
                    TfLcg.root_mean_squared_error_1
                    0 0 (Models.bad_model Z.mul 0 1%Z) [] []
                    Models.PREDICT 7))). done.
  - apply (proj2 (proj2 (model_fn_short_sequences Z.add Z.sub
                    TfLcg.random_uniform
                    TfLcg.mean_squared_error TfLcg.create_train_op
                    TfLcg.root_mean_squared_error
                    TfLcg.root_mean_squared_error_1
                    1 1 (Models.bad_model Z.mul 1 1%Z) [[3]; [4]]%Z []
                    Models.PREDICT 7))); [done|lia|].
    by repeat constructor.
Defined.

(** X19. With the recurrent model that the notebook's [model_fn] uses
    and sequences of [SEQLEN ≥ 2] samples, training and evaluation compare
    like with like: the model output is the last [SEQLEN // 2] predictions
    of each sequence, the loss and the first metric compare it with the
    last [SEQLEN // 2] labels of the same sequence, in the same shape, and
    the function returns exactly when the framework accepts the loss, the
    training operation and the four metrics. *)
Theorem model_fn_RNN_targets {F tfrng Loss TrainOp Metric : Type}
    (fadd fsub : F → F → F) (random_uniform : tfrng → F * tfrng)
    (mean_squared_error : list (list F) → list (list F) → option Loss)
    (create_train_op : Loss → option TrainOp)
    (root_mean_squared_error : list (list F) → list (list F) → option Metric)
    (root_mean_squared_error_1 : list F → list F → option Metric)
    (SEQLEN : nat) (regression : list (list F) → list (list F))
    (features labels : list (list F)) (mode : Models.ModeKeys) (g : tfrng) :
  mode ≠ Models.PREDICT → 2 ≤ SEQLEN →
  Forall (λ r, length r = SEQLEN) features →
  Forall (λ r, length r = SEQLEN) labels →
  Forall (λ r, length r = SEQLEN) (regression features) →
  length (regression features) = length labels →
  Forall (λ r, length r = SEQLEN / 2)
    (drop (SEQLEN - SEQLEN / 2) <$> regression features) ∧
  Forall (λ r, length r = SEQLEN / 2) (drop (SEQLEN - SEQLEN / 2) <$> labels) ∧
  length (drop (SEQLEN - SEQLEN / 2) <$> regression features) =
    length (drop (SEQLEN - SEQLEN / 2) <$> labels) ∧
  ∃ Yout last_label Yrnd Ysal Ytfl g',
    Models.simplistic_models fadd fsub random_uniform SEQLEN features g =
      Some (Yrnd, Ysal, Ytfl, g') ∧
    (∀ b row, regression features !! b = Some row →
       Yout !! b = row !! (SEQLEN - 1)) ∧
    (∀ b row, labels !! b = Some row → last_label !! b = row !! (SEQLEN - 1)) ∧
    Models.model_fn fadd fsub random_uniform mean_squared_error
      create_train_op root_mean_squared_error root_mean_squared_error_1
      SEQLEN regression features labels mode g =
    (l ← mean_squared_error
           (drop (SEQLEN - SEQLEN / 2) <$> regression features)
           (drop (SEQLEN - SEQLEN / 2) <$> labels);
     op ← create_train_op l;
     RMSE ← root_mean_squared_error
              (drop (SEQLEN - SEQLEN / 2) <$> regression features)
              (drop (SEQLEN - SEQLEN / 2) <$> labels);
     RMSErnd ← root_mean_squared_error_1 Yrnd last_label;
     RMSEsal ← root_mean_squared_error_1 Ysal last_label;
     RMSEtfl ← root_mean_squared_error_1 Ytfl last_label;
     Some ({| Models.mode := mode; Models.predictions := Yout;
              Models.loss := Some l; Models.train_op := Some op;
              Models.eval_metric_ops :=
                Some (RMSE, RMSErnd, RMSEsal, RMSEtfl) |}, g')).
Proof.
  intros Hmode HL Hfeat Hlab Hreg Hlen.
  pose proof (Nat.div_mod_eq SEQLEN 2) as Hdm.
  pose proof (Nat.mod_upper_bound SEQLEN 2 ltac:(lia)) as Hmod.
  assert (Hn : 0 < SEQLEN / 2 ∧ SEQLEN / 2 ≤ SEQLEN) by lia.
  assert (HY : Models.RNN_model_N SEQLEN regression features =
               drop (SEQLEN - SEQLEN / 2) <$> regression features).
  { unfold Models.RNN_model_N. rewrite RNN_model_eq by done.
    destruct (Nat.eqb_spec (SEQLEN / 2) 0); [lia|done]. }
  assert (Hw : Models.RNN_model_width SEQLEN (SEQLEN / 2) = SEQLEN / 2).
  { rewrite RNN_model_width_eq.
    destruct (Nat.eqb_spec (SEQLEN / 2) 0); lia. }
  assert (Hdrop : ∀ rows : list (list F),
    Forall (λ r, length r = SEQLEN) rows →
    Forall (λ r, length r = SEQLEN / 2) (drop (SEQLEN - SEQLEN / 2) <$> rows)).
  { intros rows Hrows. apply Forall_fmap. eapply Forall_impl; [done|].
    cbv beta. intros r Hr. unfold compose. rewrite length_drop. lia. }
  split_and!; [by apply Hdrop|by apply Hdrop|by rewrite !length_fmap|].
  unfold Models.model_fn. rewrite Hw.
  destruct (configurable_model_fn_train fadd fsub random_uniform
              mean_squared_error create_train_op root_mean_squared_error
              root_mean_squared_error_1 SEQLEN (SEQLEN / 2)
              (Models.RNN_model_N SEQLEN regression) features labels mode g)
    as (Yout & ll & Yrnd & Ysal & Ytfl & g' & Hsimple & HYout & Hll & Hrun);
    try done; try lia.
  { rewrite HY. by apply Hdrop. }
  exists Yout, ll, Yrnd, Ysal, Ytfl, g'. rewrite HY in Hrun, HYout.
  split_and!; [done| |done|done].
  intros b row Hb.
  rewrite (HYout b (drop (SEQLEN - SEQLEN / 2) row)).
  - rewrite lookup_drop. f_equal. lia.
  - by rewrite list_lookup_fmap, Hb.
Qed.

Lemma model_fn_RNN_targets_witness :
  Forall (λ r, length r = 4 / 2)
    (drop (4 - 4 / 2) <$> id [[0; 1; 2; 3]; [4; 5; 6; 7]]%Z) ∧
  Forall (λ r, length r = 4 / 2)
    (drop (4 - 4 / 2) <$> [[1; 2; 3; 4]; [5; 6; 7; 0]]%Z) ∧
  length (drop (4 - 4 / 2) <$> id [[0; 1; 2; 3]; [4; 5; 6; 7]]%Z) =
    length (drop (4 - 4 / 2) <$> [[1; 2; 3; 4]; [5; 6; 7; 0]]%Z) ∧
  ∃ Yout last_label Yrnd Ysal Ytfl g',
    Models.simplistic_models Z.add Z.sub TfLcg.random_uniform 4
      [[0; 1; 2; 3]; [4; 5; 6; 7]]%Z 7 = Some (Yrnd, Ysal, Ytfl, g') ∧
    (∀ b row, id [[0; 1; 2; 3]; [4; 5; 6; 7]]%Z !! b = Some row →
       Yout !! b = row !! (4 - 1)) ∧
    (∀ b row, [[1; 2; 3; 4]; [5; 6; 7; 0]]%Z !! b = Some row →
       last_label !! b = row !! (4 - 1)) ∧
    Models.model_fn Z.add Z.sub TfLcg.random_uniform
      TfLcg.mean_squared_error TfLcg.create_train_op
      TfLcg.root_mean_squared_error TfLcg.root_mean_squared_error_1
      4 id [[0; 1; 2; 3]; [4; 5; 6; 7]]%Z [[1; 2; 3; 4]; [5; 6; 7; 0]]%Z
      Models.TRAIN 7 =
    (l ← TfLcg.mean_squared_error
           (drop (4 - 4 / 2) <$> id [[0; 1; 2; 3]; [4; 5; 6; 7]]%Z)
           (drop (4 - 4 / 2) <$> [[1; 2; 3; 4]; [5; 6; 7; 0]]%Z);
     op ← TfLcg.create_train_op l;
     RMSE ← TfLcg.root_mean_squared_error
              (drop (4 - 4 / 2) <$> id [[0; 1; 2; 3]; [4; 5; 6; 7]]%Z)
              (drop (4 - 4 / 2) <$> [[1; 2; 3; 4]; [5; 6; 7; 0]]%Z);
     RMSErnd ← TfLcg.root_mean_squared_error_1 Yrnd last_label;
     RMSEsal ← TfLcg.root_mean_squared_error_1 Ysal last_label;
     RMSEtfl ← TfLcg.root_mean_squared_error_1 Ytfl last_label;
     Some ({| Models.mode := Models.TRAIN; Models.predictions := Yout;
              Models.loss := Some l; Models.train_op := Some op;
              Models.eval_metric_ops :=
                Some (RMSE, RMSErnd, RMSEsal, RMSEtfl) |}, g')).
Proof.
  apply (model_fn_RNN_targets Z.add Z.sub TfLcg.random_uniform
           TfLcg.mean_squared_error TfLcg.create_train_op
           TfLcg.root_mean_squared_error TfLcg.root_mean_squared_error_1
           4 id [[0; 1; 2; 3]; [4; 5; 6; 7]]%Z [[1; 2; 3; 4]; [5; 6; 7; 0]]%Z
           Models.TRAIN 7); try done; try lia; by repeat constructor.
Defined.

(** X10. On the windows of a sequence, the target of the loss, the last
    label of window [w], is the sample that follows the window in the
    source (the first sample after the final window); the "same as last"
    baseline predicts the last input of the window, which is the label
    just before the target. *)
Theorem target_follows_window {F : Type} (data : list F) (L : nat)
    (X Y : list (list F)) :
  Notebook.windowing data L = Ok (X, Y) →
  ∃ last_label Ysal,
    Tf.column L Y (-1) = Some last_label ∧ Tf.column L X (-1) = Some Ysal ∧
    length last_label = length data / L ∧ length Ysal = length data / L ∧
    ∀ w, w < length data / L →
      Ysal !! w = data !! (w * L + (L - 1)) ∧
      last_label !! w = data !! ((w * L + L) `mod` length data) ∧
      (2 ≤ L → ∀ y, Y !! w = Some y → Ysal !! w = y !! (L - 2)).
Proof.
  intros Hwin.
  destruct (window_lengths _ _ _ _ Hwin) as (HX & HY & HfX & HfY).
  destruct (windowing_Ok_inv _ _ _ _ Hwin) as (HL & _).
  destruct (column_from_end_total L Y 1) as [ll Hll]; [lia|lia|done|].
  destruct (column_from_end_total L X 1) as [Ysal HYsal]; [lia|lia|done|].
  exists ll, Ysal. split_and!; try done.
  - rewrite (column_length _ _ _ _ Hll). done.
  - rewrite (column_length _ _ _ _ HYsal). done.
  - intros w Hw. rewrite Forall_forall in HfX, HfY.
    destruct (lookup_lt_is_Some_2 X w) as [x Hx]; [lia|].
    destruct (lookup_lt_is_Some_2 Y w) as [y Hy]; [lia|].
    pose proof (HfX x (list_elem_of_lookup_2 _ _ _ Hx)) as Hxl.
    pose proof (HfY y (list_elem_of_lookup_2 _ _ _ Hy)) as Hyl.
    destruct (column_last_lookup _ _ _ _ _ HYsal Hx) as (_ & _ & HS).
    destruct (column_last_lookup _ _ _ _ _ Hll Hy) as (_ & _ & HT).
    split_and!.
    + rewrite HS. apply (input_window_lookup data L X Y w x (L - 1) Hwin Hx). lia.
    + rewrite HT.
      rewrite (label_window_lookup data L X Y w y (L - 1) Hwin Hy) by lia.
      do 2 f_equal. lia.
    + intros H2 y' Hy'. assert (y' = y) as -> by congruence.
      rewrite HS.
      destruct (window_shift data L X Y w x y Hwin Hx Hy) as (Hshift & _).
      rewrite (Hshift (L - 2)) by lia. f_equal. lia.
Qed.

Lemma target_follows_window_witness :
  ∃ last_label Ysal,
    Tf.column 4 [[1; 2; 3; 4]; [5; 6; 7; 0]]%Z (-1) = Some last_label ∧
    Tf.column 4 [[0; 1; 2; 3]; [4; 5; 6; 7]]%Z (-1) = Some Ysal ∧
    length last_label = length Lcg.example_data / 4 ∧
    length Ysal = length Lcg.example_data / 4 ∧
    ∀ w, w < length Lcg.example_data / 4 →
      Ysal !! w = Lcg.example_data !! (w * 4 + (4 - 1)) ∧
      last_label !! w =
        Lcg.example_data !! ((w * 4 + 4) `mod` length Lcg.example_data) ∧
      (2 ≤ 4 → ∀ y, [[1; 2; 3; 4]; [5; 6; 7; 0]]%Z !! w = Some y →
         Ysal !! w = y !! (4 - 2)).
Proof.
  apply (target_follows_window Lcg.example_data 4). reflexivity.
Defined.

(** ** The training stream *)

Section stream_facts.
Context {E tfrng : Type} (random : tfrng → nat * tfrng).
Implicit Types (pool pending buffer : list E) (st : Stream.state (E := E) (tfrng := tfrng)).

Lemma repeat_next_Some pool pending :
  pool ≠ [] → ∃ e pending', Stream.repeat_next pool pending = (Some e, pending').
Proof.
  intros Hne. unfold Stream.repeat_next.
  destruct pending as [|e pending']; [|eauto].
  destruct pool; [done|eauto].
Qed.

Lemma repeat_next_subseteq pool pending o pending' :
  pending ⊆ pool → Stream.repeat_next pool pending = (o, pending') →
  pending' ⊆ pool ∧ ∀ e, o = Some e → e ∈ pool.
Proof.
  intros Hsub. unfold Stream.repeat_next.
  destruct pending as [|e pending0].
  - destruct pool as [|e pool0]; intros [= <- <-].
    + split; [done|by intros ? [=]].
    + split; [by intros v Hv; right|]. intros ? [= <-]. by left.
  - intros [= <- <-]. split.
    + intros v Hv. apply Hsub. by right.
    + intros ? [= <-]. apply Hsub. by left.
Qed.

Lemma fill_subseteq n pool buffer pending buf pend :
  buffer ⊆ pool → pending ⊆ pool →
  Stream.fill n pool buffer pending = (buf, pend) →
  buf ⊆ pool ∧ pend ⊆ pool.
Proof.
  revert buffer pending. induction n as [|n IH]; intros buffer pending Hb Hp.
  - by intros [= <- <-].
  - simpl. destruct (Stream.repeat_next pool pending) as [o pending'] eqn:Hrep.
    destruct (repeat_next_subseteq _ _ _ _ Hp Hrep) as [Hp' He].
    destruct o as [e|]; [|by intros [= <- <-]].
    apply IH; [|done]. specialize (He e eq_refl).
    intros v [Hv|Hv%list_elem_of_singleton]%elem_of_app; [by apply Hb|by subst].
Qed.

Lemma fill_length n pool buffer pending :
  pool ≠ [] →
  length (Stream.fill n pool buffer pending).1 = length buffer + n.
Proof.
  intros Hne. revert buffer pending.
  induction n as [|n IH]; intros buffer pending; simpl; [lia|].
  destruct (repeat_next_Some pool pending Hne) as (e & pending' & ->).
  rewrite IH, length_app. simpl. lia.
Qed.

(** While the current pass has [n] elements left, filling takes them in
    order. *)
Lemma fill_from_pending n pool buffer pending :
  n ≤ length pending →
  Stream.fill n pool buffer pending = (buffer ++ take n pending, drop n pending).
Proof.
  revert buffer pending. induction n as [|n IH]; intros buffer pending Hn; simpl.
  - by rewrite take_0, drop_0, app_nil_r.
  - destruct pending as [|e pending]; [simpl in Hn; lia|]. simpl.
    rewrite IH by (simpl in Hn; lia). by rewrite <- app_assoc.
Qed.

Lemma shuffle_next_Some buffer_size pool st :
  pool ≠ [] → 0 < buffer_size → stream_inv pool st →
  ∃ e st', Stream.shuffle_next random buffer_size pool st = (Some e, st') ∧
    e ∈ pool ∧ stream_inv pool st'.
Proof.
  intros Hne Hsize [Hb Hp]. unfold Stream.shuffle_next.
  pose proof (fill_length (buffer_size - length (Stream.buffer st)) pool
    (Stream.buffer st) (Stream.pending st) Hne) as Hlen.
  destruct (Stream.fill _ pool (Stream.buffer st) (Stream.pending st))
    as [buf pend] eqn:Hfill.
  destruct (fill_subseteq _ _ _ _ _ _ Hb Hp Hfill) as [Hbuf Hpend].
  simpl in Hlen. destruct buf as [|head buf]; [simpl in Hlen; lia|].
  destruct (random (Stream.generator st)) as [r g'].
  set (offset := r `mod` length (head :: buf)).
  assert (Hoff : offset < length (head :: buf)).
  { apply Nat.mod_upper_bound. done. }
  destruct (lookup_lt_is_Some_2 _ _ Hoff) as [e He]. rewrite He.
  exists e. eexists. split; [done|]. split.
  - apply Hbuf. by eapply list_elem_of_lookup_2.
  - split; simpl; [|done]. intros v Hv.
    assert (v ∈ <[offset := head]> (head :: buf)) as Hin.
    { destruct (<[offset:=head]> (head :: buf)); [done|]. by right. }
    apply list_elem_of_lookup in Hin as [i Hi].
    apply list_lookup_insert_Some in Hi as [(_ & <- & _)|[_ Hi]].
    + apply Hbuf. by left.
    + apply Hbuf. by eapply list_elem_of_lookup_2.
Qed.

Lemma pull_full n buffer_size pool st :
  pool ≠ [] → 0 < buffer_size → stream_inv pool st →
  ∃ es st', Stream.pull random n buffer_size pool st = (es, st') ∧
    length es = n ∧ Forall (λ e, e ∈ pool) es ∧ stream_inv pool st'.
Proof.
  intros Hne Hsize. revert st. induction n as [|n IH]; intros st Hinv.
  - exists [], st. split_and!; [done|done|constructor|done].
  - simpl.
    destruct (shuffle_next_Some buffer_size pool st Hne Hsize Hinv)
      as (e & st1 & -> & He & Hinv1).
    destruct (IH st1 Hinv1) as (es & st2 & -> & Hlen & Hes & Hinv2).
    exists (e :: es), st2.
    split_and!; [done|by simpl; rewrite Hlen|by constructor|done].
Qed.

(** With a non-empty source every request is served with a full batch of
    source elements. *)
Lemma batches_full k batch_size buffer_size pool st :
  pool ≠ [] → 0 < buffer_size → 0 < batch_size → stream_inv pool st →
  Forall (λ r, ∃ es, r = Ok es ∧ length es = batch_size ∧
                 Forall (λ e, e ∈ pool) es)
    (Stream.batches random k batch_size buffer_size pool st).
Proof.
  intros Hne Hsize Hbatch. revert st. induction k as [|k IH]; intros st Hinv.
  - constructor.
  - simpl. unfold Stream.batch_next.
    destruct (pull_full batch_size buffer_size pool st Hne Hsize Hinv)
      as (es & st' & -> & Hlen & Hes & Hinv').
    destruct es as [|e es]; [simpl in Hlen; lia|].
    constructor; [eauto|]. by apply IH.
Qed.

(** A source without elements ends the sequence at the first request. *)
Lemma batch_next_empty batch_size buffer_size (g : tfrng) :
  (Stream.batch_next (E := E) random batch_size buffer_size []
     {| Stream.pending := []; Stream.buffer := []; Stream.generator := g |}).1
  = Raise OutOfRangeError.
Proof.
  unfold Stream.batch_next. destruct batch_size as [|b]; [done|]. simpl.
  unfold Stream.shuffle_next. simpl.
  by destruct (buffer_size - 0).
Qed.
End stream_facts.

Section stream_first.
Context {E tfrng : Type} (random : tfrng → nat * tfrng).

(** The first element delivered is the one at the drawn offset among the
    first [buffer_size] elements of the source. *)
Lemma shuffle_next_first buffer_size (pool : list E) (g : tfrng) :
  0 < buffer_size → buffer_size ≤ length pool →
  (Stream.shuffle_next random buffer_size pool
     {| Stream.pending := pool; Stream.buffer := []; Stream.generator := g |}).1
  = pool !! ((random g).1 `mod` buffer_size).
Proof.
  intros Hpos Hle. unfold Stream.shuffle_next. simpl.
  rewrite Nat.sub_0_r, fill_from_pending by done. simpl.
  assert (Hlen : length (take buffer_size pool) = buffer_size).
  { rewrite length_take. lia. }
  destruct (take buffer_size pool) as [|head buf] eqn:Htake;
    [simpl in Hlen; lia|].
  destruct (random g) as [r g']. cbn beta iota delta [fst]. rewrite Hlen.
  rewrite <- Htake. apply lookup_take_lt. apply Nat.mod_upper_bound. lia.
Qed.

Lemma pull_first n buffer_size (pool : list E) st :
  (Stream.pull random (S n) buffer_size pool st).1 !! 0 =
  (Stream.shuffle_next random buffer_size pool st).1.
Proof.
  simpl. destruct (Stream.shuffle_next random buffer_size pool st) as [[e|] st1];
    [|done].
  by destruct (Stream.pull random n buffer_size pool st1).
Qed.
End stream_first.

Section training_facts.
Context {F rng tfrng : Type} `{!RandomState F rng}.
Context (random : tfrng → nat * tfrng).
Implicit Types (g : Notebook.prepared (F := F)).

(** With positive sizes the steps read the stream. *)
Lemma steps_batches k (it : Training.train_iterator (F := F) (tfrng := tfrng)) :
  0 < Training.buffer_size it → 0 < Training.batch_size it →
  Training.steps random k it =
  (λ r : result (list (list F * list F)), b ← r; mret (b.*1, b.*2)) <$>
    Stream.batches random k (Training.batch_size it) (Training.buffer_size it)
      (Training.pool it) (Training.position it).
Proof.
  revert it. induction k as [|k IH]; intros it Hq HB; [done|].
  cbn [Training.steps Stream.batches]. unfold Training.get_next.
  destruct (Nat.eqb_spec (Training.buffer_size it) 0); [lia|].
  destruct (Nat.eqb_spec (Training.batch_size it) 0); [lia|].
  cbn [orb].
  destruct (Stream.batch_next random _ _ _ (Training.position it)) as [r st'].
  rewrite IH by done. done.
Qed.

(** With a zero size every step is rejected. *)
Lemma steps_rejected k (it : Training.train_iterator (F := F) (tfrng := tfrng)) :
  Training.buffer_size it = 0 ∨ Training.batch_size it = 0 →
  Training.steps random k it = replicate k (Raise InvalidArgumentError).
Proof.
  intros Hz. induction k as [|k IH]; [done|].
  cbn [Training.steps]. unfold Training.get_next.
  assert ((Training.buffer_size it =? 0) || (Training.batch_size it =? 0) = true)
    as ->.
  { apply orb_true_iff. rewrite !Nat.eqb_eq. done. }
  by rewrite IH.
Qed.

Lemma train_pool_Ok data L K (s s' : rng) g :
  Notebook.prepare data L K s = Ok (g, s') →
  0 < L ∧
  Notebook.train_pool g = Ok (zip (Notebook.traindata g) (Notebook.labeldata g)) ∧
  length (zip (Notebook.traindata g) (Notebook.labeldata g)) = length data / L.
Proof.
  intros (Hwin & _)%prepare_Ok_inv.
  destruct (window_lengths _ _ _ _ Hwin) as (HX & HY & _).
  destruct (windowing_Ok_inv _ _ _ _ Hwin) as (HL & _).
  split; [done|]. split.
  - unfold Notebook.train_pool, Dataset.from_tensor_slices.
    destruct (Nat.eqb_spec (length (Notebook.traindata g))
      (length (Notebook.labeldata g))); [done|lia].
  - rewrite length_zip. lia.
Qed.

(** After the preparation [train_dataset()] returns its iterator,
    whatever the sizes. *)
Lemma train_dataset_Ok data L K (s s' : rng) g N B (seed : tfrng) :
  Notebook.prepare data L K s = Ok (g, s') →
  Training.train_dataset g N L B seed =
    Ok {| Training.pool := zip (Notebook.traindata g) (Notebook.labeldata g);
          Training.buffer_size := N * 4 / L;
          Training.batch_size := B;
          Training.position :=
            {| Stream.pending :=
                 zip (Notebook.traindata g) (Notebook.labeldata g);
               Stream.buffer := [];
               Stream.generator := seed |} |}.
Proof.
  intros Hprep.
  destruct (train_pool_Ok _ _ _ _ _ _ Hprep) as (HL & Hpool & _).
  unfold Training.train_dataset, floordiv. rewrite Hpool. simpl.
  destruct (Nat.eqb_spec L 0); [lia|done].
Qed.

(** On a non-empty sequence and with positive sizes, every step gets a
    full batch of window pairs. *)
Lemma train_steps_full data L K (s s' : rng) g N B (seed : tfrng) it k :
  Notebook.prepare data L K s = Ok (g, s') → data ≠ [] →
  0 < N * 4 / L → 0 < B →
  Training.train_dataset g N L B seed = Ok it →
  length (Training.steps random k it) = k ∧
  Forall (λ r, ∃ samples labels,
            r = Ok (samples, labels) ∧
            length samples = B ∧ length labels = B ∧
            ∀ j x y, samples !! j = Some x → labels !! j = Some y →
              ∃ w, Notebook.traindata g !! w = Some x ∧
                   Notebook.labeldata g !! w = Some y)
    (Training.steps random k it).
Proof.
  intros Hprep Hne Hq HB Hds.
  destruct (train_pool_Ok _ _ _ _ _ _ Hprep) as (HL & Hpool & Hn).
  rewrite (train_dataset_Ok _ _ _ _ _ _ _ _ _ Hprep) in Hds.
  injection Hds as <-.
  pose proof (prepare_Ok_inv _ _ _ _ _ _ Hprep) as (Hwin & _).
  destruct (windowing_Ok_inv _ _ _ _ Hwin) as (_ & Hlen & _).
  assert (Hpne : zip (Notebook.traindata g) (Notebook.labeldata g) ≠ []).
  { intros Hnil. rewrite Hnil in Hn. simpl in Hn.
    destruct data; [done|]. simpl in *. lia. }
  rewrite steps_batches by done. simpl. split.
  { rewrite length_fmap. clear.
    generalize ({| Stream.pending := zip (Notebook.traindata g) (Notebook.labeldata g);
                   Stream.buffer := []; Stream.generator := seed |}).
    induction k as [|k IH]; intros st; [done|]. simpl.
    destruct (Stream.batch_next random B (N * 4 / L) _ st). simpl. by rewrite IH. }
  apply Forall_fmap.
  eapply Forall_impl.
  - apply batches_full; [done|done|done|].
    split; simpl; [by intros ? ?%elem_of_nil|done].
  - simpl. intros r (es & -> & Hes & Hall). exists es.*1, es.*2.
    split; [done|]. rewrite !length_fmap. split; [done|]. split; [done|].
    intros j x y. rewrite !list_lookup_fmap.
    intros ([x' y'] & Hj & ->)%fmap_Some ([x'' y''] & Hj' & ->)%fmap_Some.
    assert (x'' = x' ∧ y'' = y') as [-> ->] by (split; congruence). simpl.
    rewrite Forall_forall in Hall.
    pose proof (Hall _ (list_elem_of_lookup_2 _ _ _ Hj)) as Hin.
    apply list_elem_of_lookup in Hin as [w Hw].
    apply lookup_zip_with_Some in Hw as (a & b & [= -> ->] & Ha & Hb).
    eauto.
Qed.
End training_facts.

(** ** Failure modes of the windowing and batching *)




(** ** The training input *)

(** X11. After the two data cells have run, [train_dataset()] returns its
    iterator whatever the sizes, and the training input never runs out:
    when the shuffle buffer [DATA_SEQ_LEN*4//SEQLEN] or the batch size is
    zero, every step is rejected for that size; otherwise every step, for
    any number of steps, gets exactly [BATCHSIZE] sequences with their
    labels. *)
Theorem train_input_outcome {F rng tfrng : Type} `{!RandomState F rng}
    {waveform : Type} (wave : waveform → nat → F → F)
    (random : tfrng → nat * tfrng) (Waveforms : list waveform)
    (N L B : nat) (s s' : rng) (data : list F) (g : Notebook.prepared)
    (seed : tfrng) (k : nat) :
  Notebook.run wave Waveforms N L s = Ok (data, g, s') →
  ∃ it, Training.train_dataset g N L B seed = Ok it ∧
    (N * 4 / L = 0 ∨ B = 0 →
       Training.steps random k it = replicate k (Raise InvalidArgumentError)) ∧
    (0 < N * 4 / L → 0 < B →
       length (Training.steps random k it) = k ∧
       Forall (λ r, ∃ samples labels,
                 r = Ok (samples, labels) ∧
                 length samples = B ∧ length labels = B)
         (Training.steps random k it)).
Proof.
  intros Hrun.
  destruct (run_Ok_inv wave _ _ _ _ _ _ _ Hrun) as (Hne & Hlen & s1 & Hprep).
  pose proof (train_dataset_Ok _ _ _ _ _ _ N B seed Hprep) as Hds.
  destruct (train_pool_Ok _ _ _ _ _ _ Hprep) as (HL & _).
  eexists. split; [exact Hds|]. split.
  - intros Hz. by apply steps_rejected.
  - intros Hq HB.
    assert (Hdata : data ≠ []).
    { intros ->. pose proof (run_empty_corpus wave _ _ _ _ _ _ Hrun). lia. }
    destruct (train_steps_full random data L _ s1 s' g N B seed _ k Hprep
                Hdata Hq HB Hds) as [Hk Hall].
    split; [done|]. eapply Forall_impl; [exact Hall|].
    cbv beta. intros r (samples & labels & -> & ? & ? & _). eauto.
Qed.

Lemma train_input_outcome_witness :
  ∃ data g s',
    Notebook.run Lcg.wave [Lcg.SINE1; Lcg.SINE2] 4 2 5 = Ok (data, g, s') ∧
    (∃ it, Training.train_dataset g 4 2 3 7 = Ok it ∧
       length (Training.steps TfLcg.random 5 it) = 5 ∧
       Forall (λ r, ∃ samples labels,
                 r = Ok (samples, labels) ∧
                 length samples = 3 ∧ length labels = 3)
         (Training.steps TfLcg.random 5 it)) ∧
    (∃ it, Training.train_dataset g 4 2 0 7 = Ok it ∧
       Training.steps TfLcg.random 5 it =
         replicate 5 (Raise InvalidArgumentError)).
Proof.
  eexists _, _, _. split; [reflexivity|]. split.
  - edestruct (train_input_outcome Lcg.wave TfLcg.random
                 [Lcg.SINE1; Lcg.SINE2] 4 2 3 5) as (it & Hds & _ & Hfull);
      [reflexivity|].
    exists it. split; [exact Hds|]. apply Hfull; [vm_compute; lia|lia].
  - edestruct (train_input_outcome Lcg.wave TfLcg.random
                 [Lcg.SINE1; Lcg.SINE2] 4 2 0 5) as (it & Hds & Hrej & _);
      [reflexivity|].
    exists it. split; [exact Hds|]. apply Hrej. by right.
Defined.

(** X12. On a non-empty sequence and with a positive shuffle buffer and
    batch size, the training stream never ends and never delivers a short
    batch: each of the first [k] steps, for any [k], gets exactly
    [BATCHSIZE] sequences with their labels, and every delivered
    (sequence, labels) pair is the input window and the label window of
    one and the same window of the source. *)
Theorem train_batches_full {F rng tfrng : Type} `{!RandomState F rng}
    (random : tfrng → nat * tfrng)
    (data : list F) (L K : nat) (s s' : rng) (g : Notebook.prepared)
    (N B : nat) (seed : tfrng) (it : Training.train_iterator) (k : nat) :
  Notebook.prepare data L K s = Ok (g, s') → data ≠ [] →
  0 < N * 4 / L → 0 < B →
  Training.train_dataset g N L B seed = Ok it →
  length (Training.steps random k it) = k ∧
  Forall (λ r, ∃ samples labels,
            r = Ok (samples, labels) ∧
            length samples = B ∧ length labels = B ∧
            ∀ j x y, samples !! j = Some x → labels !! j = Some y →
              ∃ w, Notebook.traindata g !! w = Some x ∧
                   Notebook.labeldata g !! w = Some y)
    (Training.steps random k it).
Proof. apply train_steps_full. Qed.

Lemma train_batches_full_witness :
  ∃ it, Training.train_dataset Lcg.example_prepared 2 2 2 3 = Ok it ∧
    length (Training.steps TfLcg.random 5 it) = 5 ∧
    Forall (λ r, ∃ samples labels,
              r = Ok (samples, labels) ∧
              length samples = 2 ∧ length labels = 2 ∧
              ∀ j x y, samples !! j = Some x → labels !! j = Some y →
                ∃ w, Notebook.traindata Lcg.example_prepared !! w = Some x ∧
                     Notebook.labeldata Lcg.example_prepared !! w = Some y)
      (Training.steps TfLcg.random 5 it).
Proof.
  eexists. split; [reflexivity|].
  eapply (train_batches_full TfLcg.random Lcg.example_data 2 3 5 42
            Lcg.example_prepared 2 2 3);
    [reflexivity|done|vm_compute; lia|lia|reflexivity].
Defined.

(** X13. When the data cells have run on an empty corpus there is no
    window, and the shuffle buffer [DATA_SEQ_LEN*4//SEQLEN] is zero: the
    first request to the training stream is rejected for that size, and
    does not report the end of the sequence. *)
Theorem train_stream_empty {F rng tfrng : Type} `{!RandomState F rng}
    {waveform : Type} (wave : waveform → nat → F → F)
    (random : tfrng → nat * tfrng) (Waveforms : list waveform)
    (N L B : nat) (s s' : rng) (data : list F) (g : Notebook.prepared)
    (seed : tfrng) :
  Notebook.run wave Waveforms N L s = Ok (data, g, s') → data = [] →
  Notebook.traindata g = [] ∧ Notebook.labeldata g = [] ∧
  N * 4 / L = 0 ∧
  ∃ it, Training.train_dataset g N L B seed = Ok it ∧
    Training.get_next random it = (Raise InvalidArgumentError, it).
Proof.
  intros Hrun ->.
  pose proof (run_empty_corpus wave _ _ _ _ _ _ Hrun) as Hq.
  destruct (run_Ok_inv wave _ _ _ _ _ _ _ Hrun) as (_ & _ & s1 & Hprep).
  pose proof (train_dataset_Ok _ _ _ _ _ _ N B seed Hprep) as Hds.
  pose proof (prepare_Ok_inv _ _ _ _ _ _ Hprep) as (Hwin & _).
  destruct (window_lengths _ _ _ _ Hwin) as (HX & HY & _).
  simpl in HX, HY. rewrite Nat.Div0.div_0_l in HX, HY.
  apply nil_length_inv in HX, HY.
  split_and!; [done..|].
  eexists. split; [exact Hds|].
  unfold Training.get_next. cbn [Training.buffer_size]. by rewrite Hq.
Qed.

Lemma train_stream_empty_witness :
  ∃ g s',
    Notebook.run Lcg.wave [Lcg.SINE1; Lcg.SINE2] 0 2 5 = Ok ([], g, s') ∧
    Notebook.traindata g = [] ∧ Notebook.labeldata g = [] ∧
    0 * 4 / 2 = 0 ∧
    ∃ it, Training.train_dataset g 0 2 3 7 = Ok it ∧
      Training.get_next TfLcg.random it = (Raise InvalidArgumentError, it).
Proof.
  eexists _, _. split; [reflexivity|].
  eapply (train_stream_empty Lcg.wave TfLcg.random [Lcg.SINE1; Lcg.SINE2]
            0 2 3 5); reflexivity.
Defined.

(** X14. When the corpus has [DATA_SEQ_LEN * 4] samples the shuffle buffer
    holds every window of the sequence before the first sequence is
    delivered: the first sequence of the first batch is the window at the
    drawn offset among all of them, with its own labels. *)
Theorem shuffle_buffer_holds_all {F rng tfrng : Type} `{!RandomState F rng}
    (random : tfrng → nat * tfrng)
    (data : list F) (L K : nat) (s s' : rng) (g : Notebook.prepared)
    (N B : nat) (seed : tfrng) (it : Training.train_iterator) :
  Notebook.prepare data L K s = Ok (g, s') → data ≠ [] →
  length data = N * 4 → 0 < B →
  Training.train_dataset g N L B seed = Ok it →
  Training.buffer_size it = length (Notebook.traindata g) ∧
  ∃ samples labels it',
    Training.get_next random it = (Ok (samples, labels), it') ∧
    samples !! 0 =
      Notebook.traindata g !! ((random seed).1 `mod` (length data / L)) ∧
    labels !! 0 =
      Notebook.labeldata g !! ((random seed).1 `mod` (length data / L)).
Proof.
  intros Hprep Hne HN HB Hds.
  destruct (train_pool_Ok _ _ _ _ _ _ Hprep) as (HL & Hpool & Hn).
  rewrite (train_dataset_Ok _ _ _ _ _ _ N B seed Hprep) in Hds.
  injection Hds as <-.
  pose proof (prepare_Ok_inv _ _ _ _ _ _ Hprep) as (Hwin & _).
  destruct (window_lengths _ _ _ _ Hwin) as (HX & HY & _).
  destruct (windowing_Ok_inv _ _ _ _ Hwin) as (_ & Hlen & _).
  assert (Hq : 0 < length data / L).
  { destruct data; [done|].
    pose proof (Nat.div_mod_eq (length (f :: data)) L). simpl in *. nia. }
  rewrite <- HN in *. simpl. split; [done|].
  set (pool := zip (Notebook.traindata g) (Notebook.labeldata g)) in *.
  set (st := {| Stream.pending := pool; Stream.buffer := [];
                Stream.generator := seed |}).
  pose proof (shuffle_next_first random (length data / L) pool seed Hq
                ltac:(lia)) as Hfirst.
  fold st in Hfirst.
  destruct B as [|b]; [lia|].
  pose proof (pull_first random b (length data / L) pool st) as Hpull.
  rewrite Hfirst in Hpull.
  unfold Training.get_next, Stream.batch_next. simpl Training.position.
  simpl Training.batch_size. simpl Training.buffer_size. simpl Training.pool.
  fold st.
  destruct (Nat.eqb_spec (length data / L) 0); [lia|]. cbn [orb Nat.eqb].
  destruct (Stream.pull random (S b) (length data / L) pool st) as [es st'].
  simpl in Hpull.
  assert (Hoff : (random seed).1 `mod` (length data / L) < length pool).
  { rewrite Hn. apply Nat.mod_upper_bound. lia. }
  destruct (lookup_lt_is_Some_2 _ _ Hoff) as [[x y] Hxy].
  rewrite Hxy in Hpull.
  destruct es as [|e es]; [done|]. simpl in Hpull. injection Hpull as ->.
  eexists _, _, _. split; [done|]. simpl.
  apply lookup_zip_with_Some in Hxy as (a & b' & [= -> ->] & Ha & Hb).
  by rewrite Ha, Hb.
Qed.

Lemma shuffle_buffer_holds_all_witness :
  ∃ it, Training.train_dataset Lcg.example_prepared 2 2 2 3 = Ok it ∧
    Training.buffer_size it = length (Notebook.traindata Lcg.example_prepared) ∧
    ∃ samples labels it',
      Training.get_next TfLcg.random it = (Ok (samples, labels), it') ∧
      samples !! 0 =
        Notebook.traindata Lcg.example_prepared !!
          ((TfLcg.random 3).1 `mod` (length Lcg.example_data / 2)) ∧
      labels !! 0 =
        Notebook.labeldata Lcg.example_prepared !!
          ((TfLcg.random 3).1 `mod` (length Lcg.example_data / 2)).
Proof.
  eexists. split; [reflexivity|].
  eapply (shuffle_buffer_holds_all TfLcg.random Lcg.example_data 2 3 5 42
            Lcg.example_prepared 2 2 3);
    [reflexivity|done|reflexivity|lia|reflexivity].
Defined.

(** X15. The number of training steps divides by the window length and by
    the batch size, so it raises on a zero of either; otherwise, with [q]
    the window count [DATA_SEQ_LEN*4//SEQLEN], the steps consume
    [NB_EPOCHS] times the largest multiple of [BATCHSIZE] within [q]. *)
Theorem nbsteps_outcome (N L B NB_EPOCHS : nat) :
  (L = 0 ∨ B = 0 → Training.nbsteps N L B NB_EPOCHS = Raise ZeroDivisionError) ∧
  (0 < L → 0 < B →
     ∃ k, Training.nbsteps N L B NB_EPOCHS = Ok k ∧
       k * B = NB_EPOCHS * (N * 4 / L - (N * 4 / L) `mod` B) ∧
       k * B ≤ NB_EPOCHS * (N * 4 / L)).
Proof.
  unfold Training.nbsteps, floordiv. split.
  - intros [-> | ->]; [done|]. destruct (L =? 0); done.
  - intros HL HB.
    destruct (Nat.eqb_spec L 0); [lia|]. simpl.
    destruct (Nat.eqb_spec B 0); [lia|]. simpl.
    eexists. split; [done|].
    pose proof (Nat.div_mod_eq (N * 4 / L) B) as Hdm.
    assert (N * 4 / L / B * B = N * 4 / L - (N * 4 / L) `mod` B) as Heq by lia.
    split; [rewrite <- Heq; lia|]. nia.
Qed.

Lemma nbsteps_outcome_witness :
  Training.nbsteps 10 4 0 5 = Raise ZeroDivisionError ∧
  ∃ k, Training.nbsteps 10 4 3 5 = Ok k ∧
    k * 3 = 5 * (10 * 4 / 4 - (10 * 4 / 4) `mod` 3) ∧
    k * 3 ≤ 5 * (10 * 4 / 4).
Proof.
  split.
  - apply (proj1 (nbsteps_outcome 10 4 0 5)). by right.
  - apply (proj2 (nbsteps_outcome 10 4 3 5)); lia.
Defined.

Section index_rows_facts.
Context {R : Type}.

(** Rows picked at pairwise distinct indices form a sub-multiset of the
    array, and a rearrangement of it when every index is picked. *)
Lemma index_rows_submseteq (a : list R) (idx : list nat) (r : list R) :
  mapM (λ i, a !! i) idx = Some r → NoDup idx →
  r ⊆+ a ∧ (length idx = length a → r ≡ₚ a).
Proof.
  intros Hm Hnd. apply mapM_Some in Hm.
  destruct a as [|d a0].
  { destruct Hm as [|i v idx r Hi]; [done|]. by rewrite lookup_nil in Hi. }
  set (a := d :: a0) in *.
  set (f := λ i, default d (a !! i)).
  assert (Hr : r = f <$> idx).
  { clear Hnd. induction Hm as [|i v idx r Hi Hm IH]; [done|].
    csimpl. rewrite <- IH. unfold f. by rewrite Hi. }
  assert (Ha : a = f <$> seq 0 (length a)).
  { apply list_eq. intros i. rewrite list_lookup_fmap.
    destruct (decide (i < length a)) as [Hi|Hi].
    - rewrite lookup_seq_lt by done. simpl. unfold f.
      destruct (lookup_lt_is_Some_2 a i Hi) as [v Hv]. by rewrite Hv.
    - rewrite lookup_seq_ge, lookup_ge_None_2 by lia. done. }
  assert (Hsub : idx ⊆+ seq 0 (length a)).
  { apply NoDup_submseteq; [done|]. intros i Hi. apply elem_of_seq.
    apply list_elem_of_lookup in Hi as [j Hj].
    destruct (Forall2_lookup_l _ _ _ _ _ Hm Hj) as (v & _ & Hv).
    apply lookup_lt_Some in Hv. lia. }
  split.
  - assert (f <$> idx ⊆+ f <$> seq 0 (length a)) as Hf
      by (by apply fmap_submseteq).
    by rewrite <- Ha, <- Hr in Hf.
  - intros Hlen.
    assert (f <$> idx ≡ₚ f <$> seq 0 (length a)) as Hf.
    { apply fmap_Permutation.
      apply submseteq_length_Permutation; [done|]. rewrite length_seq. lia. }
    by rewrite <- Ha, <- Hr in Hf.
Qed.
End index_rows_facts.

(** X16. The evaluation rows are picked at pairwise distinct windows: as
    multisets, the evaluation inputs are contained in the training inputs
    and the evaluation labels in the training labels; when the sample
    count equals the number of windows, the evaluation arrays are the
    training arrays in another order. *)
Theorem eval_rows_submultiset {F rng : Type} `{!RandomState F rng}
    (data : list F) (L K : nat) (s s' : rng) (g : Notebook.prepared) :
  Notebook.prepare data L K s = Ok (g, s') →
  Notebook.joined_evaldata g ⊆+ Notebook.joined_data g ∧
  Notebook.evaldata g ⊆+ Notebook.traindata g ∧
  Notebook.evallabels g ⊆+ Notebook.labeldata g ∧
  (K = length data / L →
     Notebook.evaldata g ≡ₚ Notebook.traindata g ∧
     Notebook.evallabels g ≡ₚ Notebook.labeldata g).
Proof.
  intros Hprep.
  pose proof (prepare_Ok_inv _ _ _ _ _ _ Hprep) as (Hwin & Hsplit).
  destruct (window_lengths _ _ _ _ Hwin) as (HX & HY & _).
  apply evaluation_split_Ok_inv in Hsplit as (_ & _ & Hjd & Hch & Hm & Hex & Hey).
  destruct (choice_indices _ _ _ _ _ Hch) as (Hlen & Hnd & _).
  destruct (index_rows_submseteq _ _ _ Hm Hnd) as [Hsub Hperm].
  assert (Hfst : (zip (Notebook.traindata g) (Notebook.labeldata g)).*1 =
                 Notebook.traindata g) by (apply fst_zip; lia).
  assert (Hsnd : (zip (Notebook.traindata g) (Notebook.labeldata g)).*2 =
                 Notebook.labeldata g) by (apply snd_zip; lia).
  split_and!.
  - by rewrite Hjd.
  - rewrite Hex, <- Hfst. by apply fmap_submseteq.
  - rewrite Hey, <- Hsnd. by apply fmap_submseteq.
  - intros HK.
    assert (Hp : Notebook.joined_evaldata g ≡ₚ
                 zip (Notebook.traindata g) (Notebook.labeldata g)).
    { apply Hperm. rewrite Hlen, length_zip. lia. }
    split.
    + rewrite Hex, <- Hfst. by apply fmap_Permutation.
    + rewrite Hey, <- Hsnd. by apply fmap_Permutation.
Qed.

Lemma eval_rows_submultiset_witness :
  Notebook.joined_evaldata Lcg.example_prepared ⊆+
    Notebook.joined_data Lcg.example_prepared ∧
  Notebook.evaldata Lcg.example_prepared ⊆+ Notebook.traindata Lcg.example_prepared ∧
  Notebook.evallabels Lcg.example_prepared ⊆+ Notebook.labeldata Lcg.example_prepared ∧
  (3 = length Lcg.example_data / 2 →
     Notebook.evaldata Lcg.example_prepared ≡ₚ Notebook.traindata Lcg.example_prepared ∧
     Notebook.evallabels Lcg.example_prepared ≡ₚ Notebook.labeldata Lcg.example_prepared).
Proof.
  apply (eval_rows_submultiset Lcg.example_data 2 3 5 42). reflexivity.
Defined.

(** X17. Batching loses nothing: for a positive batch size the batches, in
    order, concatenate to the dataset, none is empty and none is longer
    than the batch size; a batch size of zero is rejected. *)
Theorem batch_partitions {E : Type} (batch_size : nat) (ds : list E) :
  (batch_size = 0 → Dataset.batch batch_size ds = Raise InvalidArgumentError) ∧
  (0 < batch_size →
     ∃ bs, Dataset.batch batch_size ds = Ok bs ∧
       concat bs = ds ∧
       Forall (λ b, 0 < length b ∧ length b ≤ batch_size) bs ∧
       ∀ i b, bs !! i = Some b → b = take batch_size (drop (i * batch_size) ds)).
Proof.
  unfold Dataset.batch. split; [by intros ->|]. intros Hb.
  destruct (Nat.eqb_spec batch_size 0); [lia|].
  eexists. split; [done|]. split; [by apply groups_concat|].
  assert (Hgen : ∀ fuel (l : list E),
    Forall (λ b, 0 < length b ∧ length b ≤ batch_size)
      (Dataset.groups fuel batch_size l) ∧
    ∀ i b, Dataset.groups fuel batch_size l !! i = Some b →
      b = take batch_size (drop (i * batch_size) l)).
  { induction fuel as [|fuel IH]; intros l.
    - simpl. split; [constructor|]. intros i b. by rewrite lookup_nil.
    - destruct l as [|e l].
      + simpl. split; [constructor|]. intros i b. by rewrite lookup_nil.
      + cbn [Dataset.groups]. destruct (IH (drop batch_size (e :: l))) as [IH1 IH2].
        split.
        * constructor; [|done]. rewrite length_take. simpl. lia.
        * intros [|i] b; simpl.
          -- by intros [= <-].
          -- intros Hi. rewrite (IH2 i b Hi), drop_drop. done. }
  apply Hgen.
Qed.

Lemma batch_partitions_witness :
  Dataset.batch 0 [1; 2; 3; 4; 5] = Raise InvalidArgumentError ∧
  ∃ bs, Dataset.batch 2 [1; 2; 3; 4; 5] = Ok bs ∧
    concat bs = [1; 2; 3; 4; 5] ∧
    Forall (λ b, 0 < length b ∧ length b ≤ 2) bs ∧
    ∀ i b, bs !! i = Some b → b = take 2 (drop (i * 2) [1; 2; 3; 4; 5]).
Proof.
  split.
  - by apply (proj1 (batch_partitions 0 [1; 2; 3; 4; 5])).
  - apply (proj2 (batch_partitions 2 [1; 2; 3; 4; 5])). lia.
Defined.

(** X18. The convolutional model builds exactly for [SEQLEN ≥ 4], and then
    its output has shape [[BATCHSIZE, 1]]: after the two poolings
    [SEQLEN // 4] steps are left, which the last convolution, with a
    kernel of that very size, reduces to one.  For a shorter sequence a
    pooling window does not fit. *)
Theorem CNN_model_shape (BATCHSIZE SEQLEN : nat) :
  (4 ≤ SEQLEN → Shape.CNN_model BATCHSIZE SEQLEN = Some (BATCHSIZE, 1)) ∧
  (SEQLEN < 4 → Shape.CNN_model BATCHSIZE SEQLEN = None).
Proof.
  unfold Shape.CNN_model, Shape.expand_dims_2, Shape.conv1d_same,
    Shape.max_pooling1d, Shape.conv1d_valid, Shape.squeeze_last.
  cbn [fst snd Nat.eqb orb mbind option_bind].
  pose proof (Nat.div_mod_eq SEQLEN 2) as H2.
  pose proof (Nat.mod_upper_bound SEQLEN 2 ltac:(lia)) as H2'.
  pose proof (Nat.div_mod_eq (SEQLEN / 2) 2) as H4.
  pose proof (Nat.mod_upper_bound (SEQLEN / 2) 2 ltac:(lia)) as H4'.
  assert (Hq : SEQLEN / 4 = SEQLEN / 2 / 2).
  { by rewrite Nat.Div0.div_div. }
  assert (Hp1 : 2 ≤ SEQLEN → (SEQLEN - 2) / 2 + 1 = SEQLEN / 2).
  { intros. pose proof (Nat.div_mod_eq (SEQLEN - 2) 2).
    pose proof (Nat.mod_upper_bound (SEQLEN - 2) 2 ltac:(lia)). lia. }
  assert (Hp2 : 2 ≤ SEQLEN / 2 → (SEQLEN / 2 - 2) / 2 + 1 = SEQLEN / 4).
  { intros. rewrite Hq. pose proof (Nat.div_mod_eq (SEQLEN / 2 - 2) 2).
    pose proof (Nat.mod_upper_bound (SEQLEN / 2 - 2) 2 ltac:(lia)). lia. }
  split.
  - intros Hge.
    destruct (Nat.ltb_spec SEQLEN 2); [lia|]. cbn [mbind option_bind].
    rewrite Hp1 by lia.
    destruct (Nat.ltb_spec (SEQLEN / 2) 2); [lia|]. cbn [mbind option_bind].
    rewrite Hp2 by lia.
    destruct (Nat.eqb_spec (SEQLEN / 4) 0); [lia|].
    rewrite Nat.ltb_irrefl. cbn [orb mbind option_bind].
    by rewrite Nat.sub_diag.
  - intros Hlt.
    destruct (Nat.ltb_spec SEQLEN 2); [done|]. cbn [mbind option_bind].
    rewrite Hp1 by lia.
    destruct (Nat.ltb_spec (SEQLEN / 2) 2); [done|lia].
Qed.

Lemma CNN_model_shape_witness :
  Shape.CNN_model 32 16 = Some (32, 1) ∧ Shape.CNN_model 32 3 = None.
Proof.
  split.
  - apply (proj1 (CNN_model_shape 32 16)). lia.
  - apply (proj2 (CNN_model_shape 32 3)). lia.
Defined.
